(** * mongo_parse: extraction of cluster and database records from log text

    A shallow embedding of [mongo_parse.py].  Text is [string]; one [ascii]
    stands for one code point below 256.  A record (a Python [dict] from
    field name to value) is a [gmap string string]; the configuration
    dictionaries, which the code walks in insertion order, are association
    lists.  The regular expressions of the pattern registry are kept as
    data and run by a small backtracking matcher for the fragment of the
    [re] syntax the registry uses. *)

From Stdlib Require Import Ascii String Decimal DecimalString Sorted.
From Stdlib Require OrderedTypeEx DecimalNat.
From stdpp Require Import gmap strings list fin_maps sorting.

#[local] Arguments String.append !s1 s2 / : simpl nomatch.

(** ** Python's [str] methods *)

Module Str.

(** [str.isspace] on one character, which is also what [\s] and the
    argument-less [strip] test: TAB, LF, VT, FF, CR, the four separators
    FS GS RS US, the space, NEL and the no-break space. *)
Definition isspace (c : ascii) : bool :=
  let n := nat_of_ascii c in
  ((9 <=? n) && (n <=? 13)) || ((28 <=? n) && (n <=? 32))
  || (n =? 133) || (n =? 160).

Definition is_empty (s : string) : bool :=
  match s with EmptyString => true | String _ _ => false end.

(** [s.lstrip] / [s.rstrip] / [s.strip] with the set of characters to
    remove given as a predicate. *)
Fixpoint lstrip_by (p : ascii -> bool) (s : string) : string :=
  match s with
  | EmptyString => EmptyString
  | String c s' => if p c then lstrip_by p s' else s
  end.

Fixpoint rstrip_by (p : ascii -> bool) (s : string) : string :=
  match s with
  | EmptyString => EmptyString
  | String c s' =>
      let r := rstrip_by p s' in
      if is_empty r && p c then EmptyString else String c r
  end.

Definition strip_by (p : ascii -> bool) (s : string) : string :=
  rstrip_by p (lstrip_by p s).

(** [s.strip()] *)
Definition strip : string -> string := strip_by isspace.

(** [s.strip(chars)] *)
Fixpoint mem (c : ascii) (chars : string) : bool :=
  match chars with
  | EmptyString => false
  | String d r => Ascii.eqb c d || mem c r
  end.

Definition strip_chars (chars : string) : string -> string :=
  strip_by (fun c => mem c chars).

(** [s.split(sep)] for a one-character separator: never the empty list. *)
Fixpoint split (sep : ascii) (s : string) : list string :=
  match s with
  | EmptyString => [EmptyString]
  | String c s' =>
      if Ascii.eqb c sep then EmptyString :: split sep s'
      else match split sep s' with
           | p :: ps => String c p :: ps
           | [] => [String c EmptyString]
           end
  end.

(** [sep.join(l)] *)
Fixpoint join (sep : string) (l : list string) : string :=
  match l with
  | [] => EmptyString
  | [x] => x
  | x :: r => x +:+ sep +:+ join sep r
  end.

(** Every character of [s] satisfies [p]. *)
Fixpoint all (p : ascii -> bool) (s : string) : bool :=
  match s with
  | EmptyString => true
  | String c s' => p c && all p s'
  end.

(** [s.startswith(sub)] *)
Fixpoint startswith (s sub : string) {struct sub} : bool :=
  match sub with
  | EmptyString => true
  | String c sub' =>
      match s with
      | String d s' => Ascii.eqb d c && startswith s' sub'
      | EmptyString => false
      end
  end.

(** [s.find(sub)]: the index of the first occurrence of [sub]. *)
Fixpoint find (sub s : string) : option nat :=
  if startswith s sub then Some 0
  else match s with
       | String _ s' => S <$> find sub s'
       | EmptyString => None
       end.

(** No character of [chars] occurs in [s]. *)
Definition free_of (chars s : string) : bool :=
  all (fun c => negb (mem c chars)) s.

(** [str(n)] for a non-negative integer. *)
Definition of_nat (n : nat) : string :=
  NilEmpty.string_of_uint (Nat.to_uint n).

End Str.

(** ** The fragment of [re] used by the registry *)

Module Re.

(** A character class: [\s], one character, or a negated set [[^...]]. *)
Inductive cclass : Type :=
  | CSpace
  | CChar (c : ascii)
  | CNeg (k : cclass).

Fixpoint in_class (k : cclass) (c : ascii) : bool :=
  match k with
  | CSpace => Str.isspace c
  | CChar d => Ascii.eqb c d
  | CNeg k' => negb (in_class k' c)
  end.

(** A pattern is a sequence of atoms around one capture group. *)
Inductive atom : Type :=
  | Lit (c : ascii)      (* a literal character, escaped or not *)
  | Star (k : cclass)    (* k*  greedy *)
  | Plus (k : cclass)    (* k+  greedy *)
  | GOpen                (* (   start of group 1 *)
  | GClose.              (* )   end of group 1 *)

Definition regex : Type := list atom.

Fixpoint lits (s : string) : regex :=
  match s with
  | EmptyString => []
  | String c s' => Lit c :: lits s'
  end.

Definition keep (inside : bool) (c : ascii) (g : string) : string :=
  if inside then String c g else g.

(** Greedy repetition: take the next character of the class when the rest
    of the match then succeeds, otherwise give it back and continue with
    [cont] from here. *)
Fixpoint star (k : cclass) (cont : string -> option string)
    (inside : bool) (s : string) : option string :=
  match s with
  | String c s' =>
      if in_class k c then
        match star k cont inside s' with
        | Some g => Some (keep inside c g)
        | None => cont s
        end
      else cont s
  | EmptyString => cont s
  end.

(** [match_here p inside s]: match [p] at the start of [s]; the result is
    the text consumed between [GOpen] and [GClose] from here on. *)
Fixpoint match_here (p : regex) (inside : bool) (s : string) : option string :=
  match p with
  | [] => Some EmptyString
  | GOpen :: p' => match_here p' true s
  | GClose :: p' => match_here p' false s
  | Lit c :: p' =>
      match s with
      | String d s' =>
          if Ascii.eqb d c then keep inside d <$> match_here p' inside s'
          else None
      | EmptyString => None
      end
  | Star k :: p' => star k (match_here p' inside) inside s
  | Plus k :: p' =>
      match s with
      | String d s' =>
          if in_class k d
          then keep inside d <$> star k (match_here p' inside) inside s'
          else None
      | EmptyString => None
      end
  end.

(** [re.search(p, s)] followed by [.group(1)]: the leftmost start position
    at which [p] matches, [None] when there is none. *)
Fixpoint search (p : regex) (s : string) : option string :=
  match match_here p false s with
  | Some g => Some g
  | None =>
      match s with
      | String _ s' => search p s'
      | EmptyString => None
      end
  end.

End Re.

(** ** The pattern registry

    Each pattern is the source's raw string read atom by atom: an escaped
    character is a literal, a backslash-s is [CSpace], a bracket set that
    starts with a caret is [CNeg]. *)

Import Re.

Definition quote : ascii := "'"%char.

(** Python: r'setName:\s*\'([^\']+)\'' *)
Definition re_replica_set_name : regex :=
  lits "setName:" ++ [Star CSpace; Lit quote; GOpen;
                      Plus (CNeg (CChar quote)); GClose; Lit quote].

(** Python: r'hosts:\s*\[\s*( [^\]]* )\s*\]', written here with a blank
    on each side of the group's content. *)
Definition re_hosts : regex :=
  lits "hosts:" ++ [Star CSpace; Lit "["%char; Star CSpace; GOpen;
                    Star (CNeg (CChar "]"%char)); GClose;
                    Star CSpace; Lit "]"%char].

(** Python: r'primary:\s*\'([^\']+)\'' *)
Definition re_primary_host : regex :=
  lits "primary:" ++ [Star CSpace; Lit quote; GOpen;
                      Plus (CNeg (CChar quote)); GClose; Lit quote].

(** Python: r'\*\* DATABASE:\s*([^\s]+)' *)
Definition re_database_name : regex :=
  lits "** DATABASE:" ++ [Star CSpace; GOpen; Plus (CNeg CSpace); GClose].

Definition CLUSTER_REGEXES : list (string * regex) :=
  [ ("replica_set_name", re_replica_set_name);
    ("hosts", re_hosts);
    ("primary_host", re_primary_host) ].

Definition DATABASE_REGEXES : list (string * regex) :=
  [ ("database_name", re_database_name) ].

(** ** The parser object *)

(** A record of the result: Python's [Dict[str, str]]. *)
Abbreviation dict := (gmap string string).

(** [config]: the dictionary with the keys ['cluster'] and ['database'],
    each a dictionary from field name to pattern, walked by [.items()] in
    insertion order. *)
Record Config : Type := {
  cluster : list (string * regex);
  database : list (string * regex)
}.

Record Parser : Type := {
  config : Config;
  parsed_data : list dict
}.

(** [Parser(config)] *)
Definition new_Parser (cfg : Config) : Parser :=
  {| config := cfg; parsed_data := [] |}.

(** The configuration [main] builds. *)
Definition main_config : Config :=
  {| cluster := CLUSTER_REGEXES; database := DATABASE_REGEXES |}.

Definition newline : ascii := "010"%char.
Definition comma : ascii := ","%char.

(** The one-character text of a line break, for writing contents down. *)
Definition nl : string := String newline EmptyString.

(** *** [parse_cluster_info] *)

(** The list comprehension of the [hosts] branch, then [' | '.join]. *)
Definition hosts_value (g : string) : string :=
  Str.join " | "
    (map (fun host => Str.strip_chars "'" (Str.strip host))
       (List.filter (fun host => negb (Str.is_empty (Str.strip host)))
          (Str.split comma g))).

(** What the loop stores for a field whose pattern captured [g]. *)
Definition field_value (field_name g : string) : string :=
  if String.eqb field_name "hosts" then hosts_value g else Str.strip g.

(** One turn of the loop over [self.config['cluster'].items()]. *)
Definition cluster_field (content : string) (record : dict)
    (item : string * regex) : dict :=
  let '(field_name, pattern) := item in
  match search pattern content with
  | Some g =>
      if String.eqb field_name "hosts"
      then <[field_name := hosts_value g]> record
      else <[field_name := Str.strip g]> record
  | None => record
  end.

Definition parse_cluster_info (self : Parser) (content : string)
    : list dict :=
  let record := fold_left (cluster_field content) (cluster (config self)) ∅ in
  if decide (record = ∅) then [] else [record].

(** *** [parse_database_info] *)

(** One turn of the inner loop over [self.config['database'].items()]. *)
Definition database_field (line : string) (record : dict)
    (item : string * regex) : dict :=
  let '(field_name, pattern) := item in
  <[field_name := match search pattern line with
                  | Some g => Str.strip g
                  | None => EmptyString
                  end]> record.

Definition line_record (self : Parser) (line_num : nat) (line : string)
    : dict :=
  fold_left (database_field line) (database (config self))
    {[ "line_number" := Str.of_nat line_num ]}.

(** The truth value of [record.get('database_name')]. *)
Definition has_database_name (record : dict) : bool :=
  match record !! "database_name" with
  | Some v => negb (Str.is_empty v)
  | None => false
  end.

(** The outer loop, from line number [line_num] on, appending to
    [parsed_records]. *)
Fixpoint database_lines (self : Parser) (line_num : nat)
    (lines : list string) (parsed_records : list dict) : list dict :=
  match lines with
  | [] => parsed_records
  | line :: rest =>
      let record := line_record self line_num line in
      database_lines self (S line_num) rest
        (if has_database_name record then parsed_records ++ [record]
         else parsed_records)
  end.

Definition parse_database_info (self : Parser) (content : string)
    : list dict :=
  database_lines self 1 (Str.split newline (Str.strip content)) [].

(** ** Exceptions, files and the output sink *)

Inductive exn : Type :=
  | FileNotFoundError
  | IOError
  | ValueError
  | AttributeError
  | UnboundLocalError.

(** What reading a path gives: its text or the exception raised. *)
Definition FileSystem : Type := string -> exn + string.

Definition read_text_file (fs : FileSystem) (file_path : string)
    : exn + string :=
  match fs file_path with
  | inl e => inl e
  | inr text => inr text
  end.

(** *** [parse_file]: the one method that assigns [self.parsed_data] *)

Definition set_parsed_data (self : Parser) (d : list dict) : Parser :=
  {| config := config self; parsed_data := d |}.

Definition parse_file (fs : FileSystem) (self : Parser)
    (file_path parse_type : string) : (exn + list dict) * Parser :=
  match read_text_file fs file_path with
  | inl e => (inl e, self)
  | inr content =>
      if String.eqb parse_type "cluster" then
        let self' := set_parsed_data self (parse_cluster_info self content) in
        (inr (parsed_data self'), self')
      else if String.eqb parse_type "database" then
        let self' := set_parsed_data self (parse_database_info self content) in
        (inr (parsed_data self'), self')
      else (inl ValueError, self)
  end.

(** *** The world [write_to_csv] writes to

    The csv module hands each row to its file object as one line; the
    sinks below keep the rows themselves (the cells before quoting).  A
    file opened with mode ['w'] is created or truncated.  Write errors are
    those of a full device: a sink takes [capacity] more rows and then
    raises.  Logging goes to the error stream and is left out. *)

Definition row : Type := list string.

Inductive handle : Type :=
  | Stdout
  | File (path : string).

Record World : Type := {
  stdout : list row;
  files : gmap string (list row);
  opened : list string;       (* files opened and not closed since *)
  readonly : gset string;     (* paths [open(path, 'w')] refuses *)
  capacity : nat
}.

Definition IO (A : Type) : Type := World -> (exn + A) * World.

Definition raise {A} (e : exn) : IO A := fun w => (inl e, w).

#[global] Instance IO_ret : MRet IO := fun A a w => (inr a, w).

#[global] Instance IO_bind : MBind IO := fun A B k m w =>
  match m w with
  | (inr a, w') => k a w'
  | (inl e, w') => (inl e, w')
  end.

(** [open(path, 'w', newline='', encoding='utf-8')] *)
Definition open_w (path : string) : IO handle :=
  fun w =>
    if decide (path ∈ readonly w) then (inl IOError, w)
    else (inr (File path),
          {| stdout := stdout w;
             files := <[path := []]> (files w);
             opened := path :: opened w;
             readonly := readonly w;
             capacity := capacity w |}).

(** The file object's [write] of one formatted row. *)
Definition emit (h : handle) (r : row) : IO unit :=
  fun w =>
    match capacity w with
    | 0 => (inl IOError, w)
    | S n =>
        (inr tt,
         match h with
         | Stdout =>
             {| stdout := stdout w ++ [r];
                files := files w;
                opened := opened w;
                readonly := readonly w;
                capacity := n |}
         | File path =>
             {| stdout := stdout w;
                files := <[path := default [] (files w !! path) ++ [r]]>
                           (files w);
                opened := opened w;
                readonly := readonly w;
                capacity := n |}
         end)
    end.

(** *** [csv.DictWriter], with its defaults [restval=''] and
    [extrasaction='raise'] *)

Record DictWriter : Type := {
  out : handle;
  fieldnames : list string
}.

(** [_dict_to_list(rowdict)]; the argument may be Python's [None], on
    which [rowdict.keys()] raises. *)
Definition _dict_to_list (self : DictWriter) (rowdict : option dict)
    : exn + row :=
  match rowdict with
  | None => inl AttributeError
  | Some d =>
      if decide (dom d ⊆ list_to_set (fieldnames self))
      then inr (map (fun key => default EmptyString (d !! key))
                  (fieldnames self))
      else inl ValueError
  end.

Definition writerow (self : DictWriter) (rowdict : dict) : IO unit :=
  match _dict_to_list self (Some rowdict) with
  | inl e => raise e
  | inr r => emit (out self) r
  end.

(** [writeheader]: the row [dict(zip(fieldnames, fieldnames))]. *)
Definition writeheader (self : DictWriter) : IO unit :=
  writerow self (list_to_map (zip (fieldnames self) (fieldnames self))).

Fixpoint writerows (self : DictWriter) (rowdicts : list dict) : IO unit :=
  match rowdicts with
  | [] => mret tt
  | d :: rest => writerow self d ;; writerows self rest
  end.

(** *** [write_to_csv] *)

(** Python compares strings code point by code point. *)
Definition str_le (a b : string) : Prop := String.leb a b = true.

#[global] Instance str_le_dec a b : Decision (str_le a b).
Proof. unfold str_le. apply _. Defined.

(** [sorted(set().union( *(record.keys() for record in parsed_data)))] *)
Definition field_union (l : list dict) : gset string :=
  ⋃ (dom <$> l).

Definition sorted_fields (l : list dict) : list string :=
  merge_sort str_le (elements (field_union l)).

Definition write_to_csv (self : Parser) (output_file : option string)
    : IO unit :=
  fun w =>
    match parsed_data self with
    | [] => (inr tt, w)                        (* warning, return *)
    | _ :: _ =>
        let names := sorted_fields (parsed_data self) in
        (* try: the sink, the first argument of DictWriter, comes first *)
        let '(sink, w1) :=
          match output_file with
          | None => (inr Stdout, w)
          | Some path => open_w path w
          end in
        (* the local [writer] is bound only if that went through *)
        let writer :=
          match sink with
          | inr h => Some {| out := h; fieldnames := names |}
          | inl _ => None
          end in
        let '(body, w2) :=
          match sink with
          | inr h =>
              let wr := {| out := h; fieldnames := names |} in
              (writeheader wr ;; writerows wr (parsed_data self)) w1
          | inl e => (inl e, w1)
          end in
        (* except IOError: logged and raised again, so [body] stays *)
        (* finally: *)
        match output_file with
        | None => (body, w2)
        | Some _ =>
            match writer with
            | None => (inl UnboundLocalError, w2)
            | Some wr =>
                match _dict_to_list wr None with
                | inl e => (inl e, w2)
                | inr _ => (body, w2)          (* the generator's close() *)
                end
            end
        end
    end.

(** The rows a sink holds. *)
Definition written (h : handle) (w : World) : list row :=
  match h with
  | Stdout => stdout w
  | File path => default [] (files w !! path)
  end.

Definition sink_of (output_file : option string) : handle :=
  match output_file with
  | None => Stdout
  | Some path => File path
  end.

(** ** The command line

    [argparse] is taken after it has split the command line into its two
    positional arguments; what remains of it here is the check of the
    first against [choices], whose failure ends the process with status
    2.  [is_file] is [Path(...).is_file()]. *)

Definition choices : list string := [ "cluster"; "database" ].

(** [parse_arguments]: the exit status of [SystemExit], or the pair it
    returns. *)
Definition parse_arguments (is_file : string -> bool)
    (args : string * string) : nat + string * string :=
  let '(parse_type, input_file) := args in
  if bool_decide (parse_type ∈ choices) then
    if is_file input_file then inr (parse_type, input_file) else inl 1
  else inl 2.

(** [main]: the exit status of the process and the world it leaves.
    [SystemExit] passes through both [except] clauses; every exception
    of [parse_file] and [write_to_csv] ends in [sys.exit(1)]. *)
Definition main (is_file : string -> bool) (fs : FileSystem)
    (args : string * string) (w : World) : nat * World :=
  match parse_arguments is_file args with
  | inl status => (status, w)
  | inr (parse_type, input_file) =>
      let parser := new_Parser main_config in
      match parse_file fs parser input_file parse_type with
      | (inl _, _) => (1, w)
      | (inr _, parser') =>
          match write_to_csv parser' None w with
          | (inl _, w') => (1, w')
          | (inr _, w') => (0, w')
          end
      end
  end.

(** * Properties *)

(** ** Strings *)

Section StrFacts.
Variable p : ascii -> bool.

Lemma lstrip_by_all s : Str.all p s = true -> Str.lstrip_by p s = EmptyString.
Proof.
  induction s as [|c s IH]; simpl; [done|].
  intros [Hc Hs]%andb_true_iff. rewrite Hc. auto.
Qed.

Lemma rstrip_by_all s : Str.all p s = true -> Str.rstrip_by p s = EmptyString.
Proof.
  induction s as [|c s IH]; simpl; [done|].
  intros [Hc Hs]%andb_true_iff. rewrite (IH Hs), Hc. done.
Qed.

Lemma strip_by_all s : Str.all p s = true -> Str.strip_by p s = EmptyString.
Proof. intros H. unfold Str.strip_by. by rewrite lstrip_by_all. Qed.

(** Nothing is removed from a text none of whose characters is in the
    set. *)
Lemma lstrip_by_head c s : p c = false ->
  Str.lstrip_by p (String c s) = String c s.
Proof. intros H. simpl. by rewrite H. Qed.

Lemma rstrip_by_none s :
  Str.all (fun c => negb (p c)) s = true -> Str.rstrip_by p s = s.
Proof.
  induction s as [|c s IH]; simpl; [done|].
  intros [Hc Hs]%andb_true_iff. rewrite (IH Hs).
  apply negb_true_iff in Hc. rewrite Hc, andb_false_r. done.
Qed.

Lemma strip_by_none s :
  Str.all (fun c => negb (p c)) s = true -> Str.strip_by p s = s.
Proof.
  intros H. unfold Str.strip_by.
  destruct s as [|c s]; [done|].
  simpl in H. apply andb_true_iff in H as [Hc Hs].
  rewrite lstrip_by_head by by apply negb_true_iff.
  apply rstrip_by_none. simpl. by rewrite Hc, Hs.
Qed.

(** [rstrip] only cuts a tail off. *)
Lemma rstrip_by_prefix s :
  exists tail, s = Str.rstrip_by p s +:+ tail.
Proof.
  induction s as [|c s [tail IH]]; simpl.
  - by exists EmptyString.
  - destruct (Str.is_empty (Str.rstrip_by p s) && p c) eqn:E.
    + by exists (String c s).
    + exists tail. simpl. by f_equal.
Qed.
End StrFacts.

Lemma split_nonempty sep s : Str.split sep s <> [].
Proof.
  destruct s as [|c s]; simpl; [done|].
  destruct (Ascii.eqb c sep); [done|]. by destruct (Str.split sep s).
Qed.

(** ** The matcher *)

Lemma keep_false_fmap c (o : option string) : keep false c <$> o = o.
Proof. by destruct o. Qed.

(** On the empty text a pattern captures nothing. *)
Lemma match_here_empty p : forall inside g,
  match_here p inside EmptyString = Some g -> g = EmptyString.
Proof.
  induction p as [|a p IH]; intros inside g; simpl.
  - congruence.
  - destruct a; simpl; eauto; discriminate.
Qed.

Lemma search_empty p g : search p EmptyString = Some g -> g = EmptyString.
Proof.
  simpl. destruct (match_here p false EmptyString) eqn:E; [|done].
  intros [= <-]. eauto using match_here_empty.
Qed.

(** A successful search is a successful match at some suffix. *)
Lemma search_Some p s g :
  search p s = Some g -> exists s0, match_here p false s0 = Some g.
Proof.
  induction s as [|c s IH]; simpl;
    destruct (match_here p false _) eqn:E; try done.
  - intros [= <-]. eauto.
  - intros [= <-]. eauto.
Qed.

(** The literal head of a pattern. *)
Lemma match_here_lits kw rest s :
  match_here (lits kw ++ rest) false (kw +:+ s) = match_here rest false s.
Proof.
  induction kw as [|c kw IH]; simpl; [done|].
  by rewrite Ascii.eqb_refl, keep_false_fmap.
Qed.

Lemma match_here_lits_None kw rest s :
  Str.startswith s kw = false ->
  match_here (lits kw ++ rest) false s = None.
Proof.
  revert s. induction kw as [|c kw IH]; intros s; simpl; [done|].
  destruct s as [|d s]; [done|].
  destruct (Ascii.eqb d c); [|done]. simpl.
  intros H. by rewrite keep_false_fmap, IH.
Qed.

Lemma match_here_lits_Some kw rest s g :
  match_here (lits kw ++ rest) false s = Some g ->
  exists s', s = kw +:+ s' /\ match_here rest false s' = Some g.
Proof.
  revert s. induction kw as [|c kw IH]; intros s; simpl.
  { intros H. by exists s. }
  destruct s as [|d s]; [done|].
  destruct (Ascii.eqb_spec d c) as [->|Hne]; [|done].
  rewrite keep_false_fmap. intros (s' & -> & H)%IH. by exists s'.
Qed.

(** Outside the group a repetition hands the continuation's capture on. *)
Lemma star_false_Some k cont s g :
  star k cont false s = Some g -> exists s', cont s' = Some g.
Proof.
  induction s as [|c s IH]; simpl; [by eauto|].
  destruct (in_class k c); [|by eauto].
  destruct (star k cont false s) eqn:E; [|by eauto].
  intros [= <-]. eauto.
Qed.

(** Inside the group, up to its end, it captures characters of its class. *)
Lemma star_true_class k s g :
  star k (match_here [GClose] true) true s = Some g ->
  Str.all (in_class k) g = true.
Proof.
  revert g. induction s as [|c s IH]; intros g; simpl.
  - by intros [= <-].
  - destruct (in_class k c) eqn:Hc; [|by intros [= <-]].
    destruct (star k _ true s) as [g'|] eqn:E; [|by intros [= <-]].
    intros [= <-]. simpl. by rewrite Hc, (IH g').
Qed.

(** ** Database mode *)

(** The loop keeps, in line order, the line records that carry a name. *)
Lemma database_lines_filter self lines : forall n acc,
  database_lines self n lines acc =
    acc ++ List.filter has_database_name
             (imap (fun i line => line_record self (n + i) line) lines).
Proof.
  induction lines as [|line lines IH]; intros n acc; simpl.
  - by rewrite app_nil_r.
  - rewrite IH, Nat.add_0_r.
    rewrite (imap_ext ((fun i l => line_record self (n + i) l) ∘ S)
               (fun i l => line_record self (S n + i) l))
      by (intros; simpl; f_equal; lia).
    destruct (has_database_name (line_record self n line)); [|done].
    by rewrite <- app_assoc.
Qed.

Lemma filter_imap_omap {A B} (P : B -> bool) lines :
  forall (f : nat -> A -> B) (g : nat -> A -> option B),
  (forall i x, match g i x with
               | Some r => f i x = r /\ P r = true
               | None => P (f i x) = false
               end) ->
  List.filter P (imap f lines) = omap id (imap g lines).
Proof.
  induction lines as [|x lines IH]; intros f g H; simpl; [done|].
  rewrite (IH (f ∘ S) (g ∘ S)) by (intros; apply H).
  specialize (H 0 x). destruct (g 0 x) as [r|]; simpl.
  - destruct H as [-> ->]. done.
  - by rewrite H.
Qed.

(** What the registry's database pattern captures: a non-empty run of
    characters that are not whitespace. *)
Lemma database_name_group line g :
  search re_database_name line = Some g ->
  g <> EmptyString /\ Str.all (fun c => negb (Str.isspace c)) g = true.
Proof.
  intros [s0 H]%search_Some.
  apply match_here_lits_Some in H as (s1 & _ & H).
  apply star_false_Some in H as (s2 & H). simpl in H.
  destruct s2 as [|d s2]; [done|].
  destruct (negb (Str.isspace d)) eqn:Hd; [|done].
  destruct (star _ _ true s2) as [g'|] eqn:E; [|done].
  injection H as <-. split; [done|].
  simpl. rewrite Hd. by apply (star_true_class (CNeg CSpace)) in E.
Qed.

Lemma line_record_registry self n line :
  database (config self) = DATABASE_REGEXES ->
  line_record self n line =
    <[ "database_name" := match search re_database_name line with
                          | Some g => g
                          | None => EmptyString
                          end ]> {[ "line_number" := Str.of_nat n ]}.
Proof.
  intros Hc. unfold line_record. rewrite Hc. simpl.
  destruct (search re_database_name line) as [g|] eqn:E; [|done].
  apply database_name_group in E as [_ E].
  unfold Str.strip. by rewrite strip_by_none.
Qed.

(** On an empty line every configured field is stored empty. *)
Lemma line_record_blank self n :
  has_database_name (line_record self n EmptyString) = false.
Proof.
  unfold line_record, has_database_name.
  assert (forall cfg (r : dict),
    r !! "database_name" = None \/ r !! "database_name" = Some EmptyString ->
    let r' := fold_left (database_field EmptyString) cfg r in
    r' !! "database_name" = None \/ r' !! "database_name" = Some EmptyString)
    as Hfold.
  { induction cfg as [|[f p] cfg IH]; intros r Hr; [done|].
    cbn [fold_left]. apply IH. unfold database_field.
    assert (match search p EmptyString with
            | Some g => Str.strip g
            | None => EmptyString
            end = EmptyString) as ->.
    { destruct (search p _) eqn:E; [|done]. by apply search_empty in E as ->. }
    destruct (decide (f = "database_name")) as [->|Hne].
    - right. apply lookup_insert_eq.
    - by rewrite lookup_insert_ne. }
  destruct (Hfold (database (config self))
              {[ "line_number" := Str.of_nat n ]}) as [-> | ->]; try done.
  by left.
Qed.

(** Text appended to [u] leaves the lines of [u] where they are; only the
    last one may grow. *)
Lemma split_app_lookup sep u v : forall i l,
  Str.split sep u !! i = Some l ->
  exists l', Str.split sep (u +:+ v) !! i = Some l' /\
             Str.startswith l' l = true.
Proof.
  induction u as [|c u IH]; intros i l; simpl.
  - destruct i; [|done]. intros [= <-].
    destruct (Str.split sep v) as [|l' ls] eqn:E; [by apply split_nonempty in E|].
    by exists l'.
  - destruct (Ascii.eqb c sep).
    + destruct i; simpl; [|by apply IH].
      intros [= <-]. by exists EmptyString.
    + destruct (Str.split sep u) as [|p ps] eqn:Eu; [by apply split_nonempty in Eu|].
      destruct (Str.split sep (u +:+ v)) as [|p' ps'] eqn:Euv;
        [by apply split_nonempty in Euv|].
      destruct i; simpl.
      * intros [= <-]. destruct (IH 0 p eq_refl) as (l' & [= <-] & Hl').
        exists (String c p'). simpl. by rewrite Ascii.eqb_refl.
      * intros H. by apply (IH (S i)).
Qed.

(** C10: for every content that is empty or consists only of whitespace,
    [parse_database_info] returns the empty list, whatever the database
    patterns are: the stripped content is one empty line, on which no
    field gets a non-empty value. *)
Theorem parse_database_info_blank self content :
  Str.all Str.isspace content = true ->
  parse_database_info self content = [].
Proof.
  intros H. unfold parse_database_info, Str.strip.
  rewrite strip_by_all by done. simpl.
  by rewrite line_record_blank.
Qed.

Lemma parse_database_info_blank_witness :
  let content := " " +:+ String newline (String "009"%char " ") in
  Str.all Str.isspace content = true /\
  parse_database_info (new_Parser main_config) content = [].
Proof.
  split; [reflexivity|].
  apply parse_database_info_blank. reflexivity.
Defined.

(** C6: every record [parse_database_info] returns has a non-empty
    [database_name]; the result is the list of the line records, in line
    order, without those whose [database_name] is missing or empty. *)
Theorem parse_database_info_names self content :
  Forall (fun r : dict =>
            exists v, r !! "database_name" = Some v /\ v <> EmptyString)
    (parse_database_info self content)
  /\ parse_database_info self content =
       List.filter has_database_name
         (imap (fun i line => line_record self (S i) line)
            (Str.split newline (Str.strip content))).
Proof.
  assert (parse_database_info self content =
          List.filter has_database_name
            (imap (fun i line => line_record self (S i) line)
               (Str.split newline (Str.strip content)))) as Heq.
  { unfold parse_database_info. by rewrite database_lines_filter. }
  split; [|done]. rewrite Heq.
  apply List.Forall_forall. intros r [_ Hr]%filter_In.
  unfold has_database_name in Hr.
  destruct (r !! "database_name") as [v|]; [|done].
  exists v. split; [done|]. by destruct v.
Qed.

(** C2 (amended): with the registry's database pattern the content is
    split into lines after whitespace is trimmed at both of its ends; the
    result holds, in line order, one record per line of the trimmed
    content in which the pattern matches, with [line_number] the 1-based
    index of that line in the trimmed content and [database_name] the
    captured text.  When the content does not begin with whitespace, the
    line at that index of the untrimmed content begins with the same
    text. *)
Theorem parse_database_info_line_numbers self content :
  database (config self) = DATABASE_REGEXES ->
  let lines := Str.split newline (Str.strip content) in
  parse_database_info self content =
    omap id (imap (fun i line =>
                     (fun g => ({[ "line_number" := Str.of_nat (S i);
                                   "database_name" := g ]} : dict))
                       <$> search re_database_name line) lines)
  /\ (Str.lstrip_by Str.isspace content = content ->
      forall i line, lines !! i = Some line ->
        exists line', Str.split newline content !! i = Some line' /\
                      Str.startswith line' line = true).
Proof.
  intros Hc lines. split.
  - destruct (parse_database_info_names self content) as [_ ->].
    apply filter_imap_omap. intros i line.
    rewrite line_record_registry by done.
    destruct (search re_database_name line) as [g|] eqn:E; simpl.
    + apply database_name_group in E as [Hg _]. split.
      * apply insert_insert_ne. done.
      * unfold has_database_name. rewrite lookup_insert_ne by done.
        rewrite lookup_singleton_eq. by destruct g.
    + unfold has_database_name. by rewrite lookup_insert_eq.
  - intros Hl i line Hi. subst lines.
    unfold Str.strip, Str.strip_by in Hi. rewrite Hl in Hi.
    destruct (rstrip_by_prefix Str.isspace content) as [tail Ht].
    rewrite Ht. by apply split_app_lookup.
Qed.

Lemma parse_database_info_line_numbers_witness :
  let content := "-- dump" +:+ nl +:+ "** DATABASE: foo" +:+ nl +:+ "a" +:+ nl
                 +:+ "b" +:+ nl +:+ "** DATABASE: bar" +:+ nl in
  database (config (new_Parser main_config)) = DATABASE_REGEXES /\
  parse_database_info (new_Parser main_config) content =
    [ {[ "line_number" := "2"; "database_name" := "foo" ]};
      {[ "line_number" := "5"; "database_name" := "bar" ]} ].
Proof.
  intros content. split; [reflexivity|].
  destruct (parse_database_info_line_numbers
              (new_Parser main_config) content eq_refl) as [-> _].
  vm_compute. reflexivity.
Defined.

(** C2 as stated fails: lines 2 and 5 of this content, and no others,
    carry the markers, and the records are numbered 1 and 4, because the
    blank first line is trimmed away before the lines are counted. *)
Lemma parse_database_info_leading_blank_line :
  let content := nl +:+ "** DATABASE: foo" +:+ nl +:+ nl +:+ nl
                 +:+ "** DATABASE: bar" in
  Str.split newline content =
    [ EmptyString; "** DATABASE: foo"; EmptyString; EmptyString;
      "** DATABASE: bar" ]
  /\ parse_database_info (new_Parser main_config) content =
       [ {[ "line_number" := "1"; "database_name" := "foo" ]};
         {[ "line_number" := "4"; "database_name" := "bar" ]} ]
  /\ parse_database_info (new_Parser main_config) content <>
       [ {[ "line_number" := "2"; "database_name" := "foo" ]};
         {[ "line_number" := "5"; "database_name" := "bar" ]} ].
Proof.
  intros content.
  assert (parse_database_info (new_Parser main_config) content =
            [ {[ "line_number" := "1"; "database_name" := "foo" ]};
              {[ "line_number" := "4"; "database_name" := "bar" ]} ]) as E.
  { vm_compute. reflexivity. }
  split; [vm_compute; reflexivity|]. split; [exact E|].
  rewrite E. intros H.
  apply (f_equal (fun l : list dict => l !! 0 ≫= (.!! "line_number"))) in H.
  vm_compute in H. discriminate H.
Qed.

(** ** Cluster mode *)

Lemma cluster_field_Some content (r : dict) f p g :
  search p content = Some g ->
  cluster_field content r (f, p) = <[f := field_value f g]> r.
Proof.
  intros H. unfold cluster_field, field_value. rewrite H.
  by destruct (String.eqb f "hosts").
Qed.

Lemma cluster_field_None content (r : dict) f p :
  search p content = None -> cluster_field content r (f, p) = r.
Proof. intros H. unfold cluster_field. by rewrite H. Qed.

(** The fields of the record after the loop: those it had and those whose
    pattern matched. *)
Lemma cluster_fold_is_Some content cfg : forall (r0 : dict) f,
  is_Some (fold_left (cluster_field content) cfg r0 !! f) <->
  is_Some (r0 !! f) \/
  exists p, (f, p) ∈ cfg /\ is_Some (search p content).
Proof.
  induction cfg as [|[f' p'] cfg IH]; intros r0 f; cbn [fold_left].
  - split; [by left|]. intros [H|(p & H & _)]; [done|]. by apply elem_of_nil in H.
  - rewrite IH. destruct (search p' content) as [g|] eqn:E.
    + rewrite (cluster_field_Some _ _ _ _ g) by done.
      rewrite lookup_insert_is_Some. split.
      * intros [[<- | [_ H]] | (p & H & Hp)].
        -- right. exists p'. split; [left|]. by rewrite E.
        -- by left.
        -- right. exists p. split; [by right|done].
      * intros [H | (p & [[= -> ->] | H]%elem_of_cons & Hp)].
        -- left. destruct (decide (f' = f)); [by left|by right].
        -- left. by left.
        -- right. by exists p.
    + rewrite cluster_field_None by done. split.
      * intros [H | (p & H & Hp)]; [by left|].
        right. exists p. split; [by right|done].
      * intros [H | (p & [[= -> ->] | H]%elem_of_cons & Hp)].
        -- by left.
        -- rewrite E in Hp. by destruct Hp.
        -- right. by exists p.
Qed.

Lemma cluster_fold_notin content cfg : forall (r0 : dict) f,
  f ∉ cfg.*1 ->
  fold_left (cluster_field content) cfg r0 !! f = r0 !! f.
Proof.
  induction cfg as [|[f' p'] cfg IH]; intros r0 f Hf; cbn [fold_left]; [done|].
  rewrite fmap_cons in Hf. apply not_elem_of_cons in Hf as [Hne Hf].
  rewrite IH by done. unfold cluster_field.
  destruct (search p' content); [|done].
  destruct (String.eqb f' "hosts"); by rewrite lookup_insert_ne.
Qed.

(** With field names that are pairwise distinct, as the keys of a
    dictionary are, a matched field holds the value built from its own
    capture. *)
Lemma cluster_fold_lookup content cfg : forall (r0 : dict) f p g,
  NoDup cfg.*1 -> (f, p) ∈ cfg -> search p content = Some g ->
  fold_left (cluster_field content) cfg r0 !! f = Some (field_value f g).
Proof.
  induction cfg as [|[f' p'] cfg IH]; intros r0 f p g Hnd Hin Hs.
  { by apply elem_of_nil in Hin. }
  cbn [fold_left]. rewrite fmap_cons in Hnd.
  apply NoDup_cons in Hnd as [Hf' Hnd].
  apply elem_of_cons in Hin as [[= -> ->] | Hin].
  - rewrite cluster_fold_notin by done.
    rewrite (cluster_field_Some _ _ _ _ g) by done. apply lookup_insert_eq.
  - by apply (IH _ f p g).
Qed.

Lemma parse_cluster_info_cases self content :
  let record := fold_left (cluster_field content) (cluster (config self)) ∅ in
  (record = ∅ /\ parse_cluster_info self content = []) \/
  (record <> ∅ /\ parse_cluster_info self content = [record]).
Proof.
  intros record. unfold parse_cluster_info. fold record.
  destruct (decide (record = ∅)); [by left|by right].
Qed.

(** C4: [parse_cluster_info] returns at most one record: none when no
    cluster pattern matches in the content, and otherwise exactly one,
    whose fields are exactly the fields with a matching pattern. *)
Theorem parse_cluster_info_at_most_one self content :
  let matched f :=
    exists p, (f, p) ∈ cluster (config self) /\ is_Some (search p content) in
  length (parse_cluster_info self content) <= 1
  /\ ((forall f, ~ matched f) -> parse_cluster_info self content = [])
  /\ ((exists f, matched f) ->
      exists r : dict, parse_cluster_info self content = [r] /\
                forall f, is_Some (r !! f) <-> matched f).
Proof.
  intros matched.
  assert (forall f,
    is_Some (fold_left (cluster_field content) (cluster (config self)) ∅ !! f)
    <-> matched f) as Hdom.
  { intros f. rewrite cluster_fold_is_Some, lookup_empty.
    split; [intros [[? [=]]|H]; done | by right]. }
  destruct (parse_cluster_info_cases self content) as [[He ->] | [Hne ->]].
  - split; [simpl; lia|]. split; [done|].
    intros [f Hf]. apply Hdom in Hf. rewrite He, lookup_empty in Hf.
    by destruct Hf.
  - split; [simpl; lia|]. split; [|by eauto].
    intros Hno. destruct Hne. apply map_empty. intros f.
    apply eq_None_not_Some. rewrite Hdom. apply Hno.
Qed.

Lemma parse_cluster_info_at_most_one_witness :
  let self := new_Parser main_config in
  (exists r : dict,
     parse_cluster_info self "primary: 'db1:27017'" = [r] /\
     (is_Some (r !! "primary_host") <->
      exists p, ("primary_host", p) ∈ cluster (config self) /\
                is_Some (search p "primary: 'db1:27017'")))
  /\ parse_cluster_info self "no cluster data" = [].
Proof.
  intros self. split.
  - destruct (parse_cluster_info_at_most_one self "primary: 'db1:27017'")
      as (_ & _ & H).
    destruct H as (r & Hr & Hdom).
    + exists "primary_host", re_primary_host. split.
      * simpl. unfold CLUSTER_REGEXES. do 2 right. left.
      * vm_compute. eauto.
    + exists r. split; [exact Hr|apply Hdom].
  - apply (parse_cluster_info_at_most_one self "no cluster data").
    intros f (p & Hin & Hs). simpl in Hin. unfold CLUSTER_REGEXES in Hin.
    repeat (apply elem_of_cons in Hin as [[= -> ->] | Hin]);
      try (vm_compute in Hs; destruct Hs; discriminate).
    by apply elem_of_nil in Hin.
Defined.

Lemma field_value_empty f : field_value f EmptyString = EmptyString.
Proof. unfold field_value. by destruct (String.eqb f "hosts"). Qed.

(** C9: when a cluster pattern matches with an empty capture group, its
    field is stored with the empty string as value, and the match counts:
    one record is returned.  Field names are pairwise distinct, as the keys
    of the configuration dictionary are. *)
Theorem parse_cluster_info_empty_capture self content f p :
  NoDup (cluster (config self)).*1 ->
  (f, p) ∈ cluster (config self) ->
  search p content = Some EmptyString ->
  exists r : dict,
    parse_cluster_info self content = [r] /\ r !! f = Some EmptyString.
Proof.
  intros Hnd Hin Hs.
  pose proof (cluster_fold_lookup content _ ∅ f p _ Hnd Hin Hs) as Hf.
  rewrite field_value_empty in Hf.
  destruct (parse_cluster_info_cases self content) as [[He _] | [_ ->]].
  - rewrite He, lookup_empty in Hf. discriminate Hf.
  - eauto.
Qed.

Lemma CLUSTER_REGEXES_NoDup : NoDup CLUSTER_REGEXES.*1.
Proof. apply (bool_decide_unpack _). vm_compute. exact I. Qed.

Lemma parse_cluster_info_empty_capture_witness :
  let self := new_Parser main_config in
  search re_hosts "hosts: []" = Some EmptyString /\
  exists r : dict,
    parse_cluster_info self "hosts: []" = [r] /\
    r !! "hosts" = Some EmptyString.
Proof.
  intros self. split; [vm_compute; reflexivity|].
  apply (parse_cluster_info_empty_capture self "hosts: []" "hosts" re_hosts).
  - apply (bool_decide_unpack _). vm_compute. exact I.
  - simpl. unfold CLUSTER_REGEXES. right. left.
  - vm_compute. reflexivity.
Defined.

Lemma filter_bool_decide {A} (P : A -> Prop) `{!forall x, Decision (P x)}
    (b : A -> bool) (l : list A) :
  (forall x, b x = true <-> P x) -> List.filter b l = filter P l.
Proof.
  intros Hb. induction l as [|x l IH]; simpl; [done|].
  rewrite filter_cons, IH. destruct (decide (P x)) as [HP|HP].
  - apply Hb in HP. by rewrite HP.
  - destruct (b x) eqn:E; [|done]. by apply Hb in E.
Qed.

(** C1 (amended): when the hosts pattern matches with capture [g], the
    [hosts] value is made from the pieces of [g] between commas: a piece
    that is empty once its surrounding whitespace is trimmed is dropped;
    every other piece is trimmed and then loses all its leading and
    trailing quote characters; the results, empty ones included, are
    joined with [" | "].  For [hosts: [ 'h1' , '', 'h2' ]] the value is
    ["h1 |  | h2"], and for [hosts: [ ''h1'' ]] it is ["h1"]. *)
Theorem parse_cluster_info_hosts :
  (forall self content g,
     cluster (config self) = CLUSTER_REGEXES ->
     search re_hosts content = Some g ->
     exists r : dict,
       parse_cluster_info self content = [r] /\
       r !! "hosts" =
         Some (Str.join " | "
                 ((fun piece => Str.strip_chars "'" (Str.strip piece)) <$>
                  filter (fun piece => Str.strip piece <> EmptyString)
                    (Str.split comma g))))
  /\ parse_cluster_info (new_Parser main_config) "hosts: [ 'h1' , '', 'h2' ]"
     = [ {[ "hosts" := "h1 |  | h2" ]} ]
  /\ parse_cluster_info (new_Parser main_config) "hosts: [ ''h1'' ]"
     = [ {[ "hosts" := "h1" ]} ].
Proof.
  split; [|split; vm_compute; reflexivity].
  intros self content g Hc Hs.
  assert (fold_left (cluster_field content) (cluster (config self)) ∅
            !! "hosts" = Some (hosts_value g)) as Hf.
  { apply (cluster_fold_lookup content _ ∅ "hosts" re_hosts g); [| |done].
    - rewrite Hc. apply CLUSTER_REGEXES_NoDup.
    - rewrite Hc. unfold CLUSTER_REGEXES. right. left. }
  destruct (parse_cluster_info_cases self content) as [[He _] | [_ ->]].
  { rewrite He, lookup_empty in Hf. discriminate Hf. }
  eexists. split; [reflexivity|]. rewrite Hf. unfold hosts_value.
  do 2 f_equal.
  rewrite (filter_bool_decide (fun piece => Str.strip piece <> EmptyString));
    [reflexivity|].
  intros x. by destruct (Str.strip x).
Qed.

Lemma parse_cluster_info_hosts_witness :
  let self := new_Parser main_config in
  let content := "members: 2, hosts: [ 'a:1', 'b:2' ]" in
  cluster (config self) = CLUSTER_REGEXES /\
  search re_hosts content = Some "'a:1', 'b:2' " /\
  exists r : dict,
    parse_cluster_info self content = [r] /\ r !! "hosts" = Some "a:1 | b:2".
Proof.
  intros self content. split; [reflexivity|]. split; [vm_compute; reflexivity|].
  destruct (proj1 parse_cluster_info_hosts self content "'a:1', 'b:2' ")
    as (r & Hr & Hh); [reflexivity | vm_compute; reflexivity |].
  exists r. split; [exact Hr|]. rewrite Hh. vm_compute. reflexivity.
Defined.

(** C1 as stated fails on its own example: the quoted empty entry is not
    dropped, it stays as an empty host between two separators. *)
Lemma parse_cluster_info_hosts_quoted_empty :
  exists r : dict,
    parse_cluster_info (new_Parser main_config) "hosts: [ 'h1' , '', 'h2' ]"
      = [r]
    /\ r !! "hosts" = Some "h1 |  | h2"
    /\ r !! "hosts" <> Some "h1 | h2".
Proof.
  exists {[ "hosts" := "h1 |  | h2" ]}.
  split; [vm_compute; reflexivity|].
  rewrite lookup_singleton_eq. split; [reflexivity|]. discriminate.
Qed.

(** ** More on strings: appended texts *)

Lemma append_nil_r s : s +:+ EmptyString = s.
Proof. induction s as [|c s IH]; simpl; [done|]. by rewrite IH. Qed.

Lemma append_assoc s t u : (s +:+ t) +:+ u = s +:+ t +:+ u.
Proof. induction s as [|c s IH]; simpl; [done|]. by rewrite IH. Qed.

Lemma all_append p s t :
  Str.all p (s +:+ t) = Str.all p s && Str.all p t.
Proof.
  induction s as [|c s IH]; simpl; [done|]. by rewrite IH, andb_assoc.
Qed.

Lemma all_impl (p q : ascii -> bool) s :
  (forall c, p c = true -> q c = true) ->
  Str.all p s = true -> Str.all q s = true.
Proof.
  intros Hpq. induction s as [|c s IH]; simpl; [done|].
  intros [Hc Hs]%andb_true_iff. by rewrite (Hpq c Hc), IH.
Qed.

Section StripAppend.
Variable p : ascii -> bool.

Lemma lstrip_by_app u s :
  Str.all p u = true -> Str.lstrip_by p (u +:+ s) = Str.lstrip_by p s.
Proof.
  induction u as [|c u IH]; simpl; [done|].
  intros [Hc Hu]%andb_true_iff. rewrite Hc. auto.
Qed.

Lemma rstrip_by_app s c t :
  p c = false ->
  Str.rstrip_by p (s +:+ String c t) = s +:+ String c (Str.rstrip_by p t).
Proof.
  intros Hc. induction s as [|d s IH]; simpl.
  - by rewrite Hc, andb_false_r.
  - rewrite IH. by destruct s.
Qed.

(** A text between two characters out of the set keeps all of itself
    when the set is stripped from around it. *)
Lemma strip_by_between u c s d t :
  Str.all p u = true -> Str.all p t = true -> p c = false -> p d = false ->
  Str.strip_by p (u +:+ String c (s +:+ String d t)) =
    String c (s +:+ String d EmptyString).
Proof.
  intros Hu Ht Hc Hd. unfold Str.strip_by.
  rewrite lstrip_by_app by done. rewrite lstrip_by_head by done.
  change (String c (s +:+ String d t)) with (String c s +:+ String d t).
  rewrite rstrip_by_app by done. by rewrite rstrip_by_all.
Qed.

Lemma rstrip_by_free_app a t :
  Str.all (fun c => negb (p c)) a = true -> Str.all p t = true ->
  Str.rstrip_by p (a +:+ t) = a.
Proof.
  intros Ha Ht. induction a as [|c a IH]; simpl.
  - by apply rstrip_by_all.
  - simpl in Ha. apply andb_true_iff in Ha as [Hc Ha].
    apply negb_true_iff in Hc. by rewrite (IH Ha), Hc, andb_false_r.
Qed.

(** A text free of the set, wrapped in characters of the set, is what is
    left of the whole. *)
Lemma strip_by_wrapped u a t :
  Str.all p u = true -> Str.all p t = true ->
  Str.all (fun c => negb (p c)) a = true ->
  Str.strip_by p (u +:+ a +:+ t) = a.
Proof.
  intros Hu Ht Ha. unfold Str.strip_by. rewrite lstrip_by_app by done.
  destruct a as [|c a].
  - simpl. by rewrite lstrip_by_all.
  - pose proof Ha as Ha'. simpl in Ha'.
    apply andb_true_iff in Ha' as [Hc _]. apply negb_true_iff in Hc.
    change (String c a +:+ t) with (String c (a +:+ t)).
    rewrite lstrip_by_head by done.
    change (String c (a +:+ t)) with (String c a +:+ t).
    by apply rstrip_by_free_app.
Qed.
End StripAppend.

Lemma split_free sep u :
  Str.all (fun c => negb (Ascii.eqb c sep)) u = true ->
  Str.split sep u = [u].
Proof.
  induction u as [|c u IH]; simpl; [done|].
  intros [Hc Hu]%andb_true_iff. apply negb_true_iff in Hc.
  by rewrite Hc, (IH Hu).
Qed.

Lemma split_app_sep sep u v :
  Str.all (fun c => negb (Ascii.eqb c sep)) u = true ->
  Str.split sep (u +:+ String sep v) = u :: Str.split sep v.
Proof.
  induction u as [|c u IH]; simpl.
  - by rewrite Ascii.eqb_refl.
  - intros [Hc Hu]%andb_true_iff. apply negb_true_iff in Hc.
    by rewrite Hc, (IH Hu).
Qed.

(** ** Searching for a pattern that starts with a keyword *)

Lemma search_unfold p s :
  search p s = match match_here p false s with
               | Some g => Some g
               | None => match s with
                         | String _ s' => search p s'
                         | EmptyString => None
                         end
               end.
Proof. by destruct s. Qed.

(** If the first occurrence of the keyword is followed by a text the rest
    of the pattern matches, the search captures there. *)
Lemma search_first kw p rest g : forall before,
  Str.find kw (before +:+ kw +:+ rest) = Some (String.length before) ->
  match_here p false rest = Some g ->
  search (lits kw ++ p) (before +:+ kw +:+ rest) = Some g.
Proof.
  intros before Hfind Hm. induction before as [|c before IH].
  - simpl. rewrite search_unfold, match_here_lits, Hm. done.
  - simpl in Hfind |- *.
    destruct (Str.startswith (String c (before +:+ kw +:+ rest)) kw) eqn:E.
    { discriminate Hfind. }
    rewrite match_here_lits_None by done.
    apply IH. destruct (Str.find kw (before +:+ kw +:+ rest)); [|done].
    simpl in Hfind. by injection Hfind as ->.
Qed.

(** A repetition skips a run of its class when it succeeds after it. *)
Lemma star_skip k cont inside u v g :
  Str.all (in_class k) u = true ->
  star k cont inside v = Some g ->
  star k cont inside (u +:+ v) = Some (if inside then u +:+ g else g).
Proof.
  intros Hu Hv. induction u as [|c u IH]; simpl.
  - by destruct inside.
  - simpl in Hu. apply andb_true_iff in Hu as [Hc Hu].
    rewrite Hc, (IH Hu). by destruct inside.
Qed.

(** [ 'X'] after the keyword of a quoted field captures [X]. *)
Lemma match_quoted X rest :
  X <> EmptyString -> Str.free_of "'" X = true ->
  match_here [Star CSpace; Lit quote; GOpen; Plus (CNeg (CChar quote));
              GClose; Lit quote] false
    (" '" +:+ X +:+ "'" +:+ rest) = Some X.
Proof.
  intros HX Hfree. destruct X as [|x X]; [done|].
  unfold Str.free_of in Hfree. simpl in Hfree.
  apply andb_true_iff in Hfree as [Hx Hfree]. rewrite orb_false_r in Hx.
  simpl. unfold quote in *. rewrite Hx.
  rewrite (star_skip _ _ true X _ EmptyString).
  - by rewrite append_nil_r.
  - eapply all_impl; [|exact Hfree]. intros c. simpl. by rewrite orb_false_r.
  - reflexivity.
Qed.

(** [ [ 'a', 'b' ]] after [hosts:] captures the text between the
    brackets, from the first quote on. *)
Lemma match_hosts a b rest :
  Str.free_of "]" a = true -> Str.free_of "]" b = true ->
  match_here [Star CSpace; Lit "["%char; Star CSpace; GOpen;
              Star (CNeg (CChar "]"%char)); GClose;
              Star CSpace; Lit "]"%char] false
    (" [ '" +:+ a +:+ "', '" +:+ b +:+ "' ]" +:+ rest)
  = Some ("'" +:+ a +:+ "', '" +:+ b +:+ "' ").
Proof.
  intros Ha Hb.
  assert (forall s, Str.free_of "]" s = true ->
                    Str.all (in_class (CNeg (CChar "]"%char))) s = true) as Hk.
  { intros s. apply all_impl. intros c. simpl. by rewrite orb_false_r. }
  set (k := CNeg (CChar "]"%char)).
  set (cont := match_here [GClose; Star CSpace; Lit "]"%char] true).
  assert (star k cont true (b +:+ "' ]" +:+ rest) = Some (b +:+ "' ")) as H2.
  { by apply (star_skip k cont true b); [apply Hk|]. }
  assert (star k cont true (a +:+ "', '" +:+ b +:+ "' ]" +:+ rest)
          = Some (a +:+ "', '" +:+ b +:+ "' ")) as H4.
  { apply (star_skip k cont true a _ ("', '" +:+ b +:+ "' ")); [by apply Hk|].
    simpl. simpl in H2. by rewrite H2. }
  simpl.
  match goal with
  | |- context [star ?k' ?c' true ?s'] =>
      replace (star k' c' true s')
        with (Some (a +:+ "', '" +:+ b +:+ "' ")) by (symmetry; exact H4)
  end.
  reflexivity.
Qed.

(** The [hosts] value of two quoted hosts. *)
Lemma hosts_value_pair a b :
  Str.free_of "'," a = true -> Str.free_of "'," b = true ->
  hosts_value ("'" +:+ a +:+ "', '" +:+ b +:+ "' ") = a +:+ " | " +:+ b.
Proof.
  intros Ha Hb.
  assert (forall s, Str.free_of "'," s = true ->
            Str.all (fun c => negb (Ascii.eqb c comma)) s = true) as Hcomma.
  { intros s. apply all_impl. intros c. simpl. unfold comma.
    destruct (Ascii.eqb c "'"), (Ascii.eqb c ","); done. }
  assert (forall s, Str.free_of "'," s = true ->
            Str.all (fun c => negb (Str.mem c "'")) s = true) as Hquote.
  { intros s. apply all_impl. intros c. simpl.
    destruct (Ascii.eqb c "'"), (Ascii.eqb c ","); done. }
  unfold hosts_value.
  assert (Str.split comma ("'" +:+ a +:+ "', '" +:+ b +:+ "' ")
          = [ "'" +:+ a +:+ "'"; " '" +:+ b +:+ "' " ]) as ->.
  { change ("'" +:+ a +:+ "', '" +:+ b +:+ "' ")
      with ("'" +:+ a +:+ "'" +:+ String comma (" '" +:+ b +:+ "' ")).
    rewrite <- (append_assoc a "'"), <- (append_assoc "'" (a +:+ "'")).
    rewrite split_app_sep, split_free; [done| |];
      simpl; rewrite all_append, Hcomma by done; reflexivity. }
  assert (Str.strip ("'" +:+ a +:+ "'") = "'" +:+ a +:+ "'") as Ea.
  { apply (strip_by_between Str.isspace EmptyString "'" a "'" EmptyString);
      reflexivity. }
  assert (Str.strip (" '" +:+ b +:+ "' ") = "'" +:+ b +:+ "'") as Eb.
  { apply (strip_by_between Str.isspace " " "'" b "'" " "); reflexivity. }
  cbn [List.filter]. rewrite Ea, Eb.
  change (Str.is_empty ("'" +:+ a +:+ "'")) with false.
  change (Str.is_empty ("'" +:+ b +:+ "'")) with false.
  cbn [negb map]. rewrite Ea, Eb. unfold Str.strip_chars.
  rewrite !(strip_by_wrapped (fun c => Str.mem c "'") "'" _ "'")
    by (reflexivity || by apply Hquote).
  reflexivity.
Qed.

(** C5 (amended): take a content in which the first occurrence of
    [setName:] is followed by [ 'X'], the first occurrence of [hosts:] by
    [ [ 'a', 'b' ]] and the first occurrence of [primary:] by [ 'c'],
    where [X] and [c] are non-empty, free of quotes and without whitespace
    at either end, and [a] and [b] are free of quotes, commas and closing
    brackets.  Then [parse_cluster_info] returns exactly the one record
    with [replica_set_name] [X], [hosts] ["a | b"] and [primary_host]
    [c]. *)
Theorem parse_cluster_info_well_formed
    self content X a b c b1 r1 b2 r2 b3 r3 :
  cluster (config self) = CLUSTER_REGEXES ->
  X <> EmptyString -> Str.free_of "'" X = true -> Str.strip X = X ->
  c <> EmptyString -> Str.free_of "'" c = true -> Str.strip c = c ->
  Str.free_of "',]" a = true -> Str.free_of "',]" b = true ->
  content = b1 +:+ "setName:" +:+ " '" +:+ X +:+ "'" +:+ r1 ->
  Str.find "setName:" content = Some (String.length b1) ->
  content = b2 +:+ "hosts:" +:+ " [ '" +:+ a +:+ "', '" +:+ b +:+ "' ]" +:+ r2 ->
  Str.find "hosts:" content = Some (String.length b2) ->
  content = b3 +:+ "primary:" +:+ " '" +:+ c +:+ "'" +:+ r3 ->
  Str.find "primary:" content = Some (String.length b3) ->
  parse_cluster_info self content =
    [ {[ "replica_set_name" := X;
         "hosts" := a +:+ " | " +:+ b;
         "primary_host" := c ]} ].
Proof.
  intros Hc HX HXq HXs Hc0 Hcq Hcs Ha Hb E1 F1 E2 F2 E3 F3.
  assert (search re_replica_set_name content = Some X) as S1.
  { rewrite E1 in F1 |- *. apply search_first; [done|]. by apply match_quoted. }
  assert (search re_primary_host content = Some c) as S3.
  { rewrite E3 in F3 |- *. apply search_first; [done|]. by apply match_quoted. }
  assert (search re_hosts content
          = Some ("'" +:+ a +:+ "', '" +:+ b +:+ "' ")) as S2.
  { rewrite E2 in F2 |- *. apply search_first; [done|].
    apply match_hosts; (eapply all_impl; [|eassumption]); intros ch; simpl;
      destruct (Ascii.eqb ch "'"), (Ascii.eqb ch ","), (Ascii.eqb ch "]");
      done. }
  unfold parse_cluster_info. rewrite Hc. unfold CLUSTER_REGEXES.
  cbn [fold_left].
  rewrite (cluster_field_Some _ _ _ _ _ S1), (cluster_field_Some _ _ _ _ _ S2),
    (cluster_field_Some _ _ _ _ _ S3).
  unfold field_value. cbn [String.eqb Ascii.eqb Bool.eqb].
  rewrite HXs, Hcs, hosts_value_pair.
  - rewrite decide_False by apply insert_non_empty.
    (* the three keys are concrete: both maps reduce to the same trie *)
    reflexivity.
  - eapply all_impl; [|exact Ha]. intros ch. simpl.
    destruct (Ascii.eqb ch "'"), (Ascii.eqb ch ","), (Ascii.eqb ch "]"); done.
  - eapply all_impl; [|exact Hb]. intros ch. simpl.
    destruct (Ascii.eqb ch "'"), (Ascii.eqb ch ","), (Ascii.eqb ch "]"); done.
Qed.

Lemma parse_cluster_info_well_formed_witness :
  let self := new_Parser main_config in
  let content :=
    "setName: 'rs0', hosts: [ 'h1:27017', 'h2:27017' ], primary: 'h1:27017'" in
  Str.find "setName:" content = Some 0 /\
  Str.find "hosts:" content = Some 16 /\
  Str.find "primary:" content = Some 51 /\
  parse_cluster_info self content =
    [ {[ "replica_set_name" := "rs0";
         "hosts" := "h1:27017 | h2:27017";
         "primary_host" := "h1:27017" ]} ].
Proof.
  intros self content.
  split; [reflexivity|]. split; [reflexivity|]. split; [reflexivity|].
  apply (parse_cluster_info_well_formed self content
           "rs0" "h1:27017" "h2:27017" "h1:27017"
           EmptyString ", hosts: [ 'h1:27017', 'h2:27017' ], primary: 'h1:27017'"
           "setName: 'rs0', " ", primary: 'h1:27017'"
           "setName: 'rs0', hosts: [ 'h1:27017', 'h2:27017' ], " EmptyString);
    solve [reflexivity | discriminate].
Defined.

(** C5 as stated fails for quote-free values the code alters: whitespace
    at the ends of the set name is trimmed away, and a comma inside a host
    splits it in two. *)
Lemma parse_cluster_info_altered_values :
  let self := new_Parser main_config in
  (Str.free_of "'" " rs0" = true /\
   parse_cluster_info self "setName: ' rs0' hosts: [ 'a', 'b' ] primary: 'c'"
     = [ {[ "replica_set_name" := "rs0"; "hosts" := "a | b";
            "primary_host" := "c" ]} ] /\
   parse_cluster_info self "setName: ' rs0' hosts: [ 'a', 'b' ] primary: 'c'"
     <> [ {[ "replica_set_name" := " rs0"; "hosts" := "a | b";
             "primary_host" := "c" ]} ])
  /\
  (Str.free_of "'" "a,1" = true /\
   parse_cluster_info self "setName: 'rs0' hosts: [ 'a,1', 'b' ] primary: 'c'"
     = [ {[ "replica_set_name" := "rs0"; "hosts" := "a | 1 | b";
            "primary_host" := "c" ]} ] /\
   parse_cluster_info self "setName: 'rs0' hosts: [ 'a,1', 'b' ] primary: 'c'"
     <> [ {[ "replica_set_name" := "rs0"; "hosts" := "a,1 | b";
             "primary_host" := "c" ]} ]).
Proof.
  intros self. split.
  - split; [reflexivity|].
    assert (parse_cluster_info self
              "setName: ' rs0' hosts: [ 'a', 'b' ] primary: 'c'"
            = [ {[ "replica_set_name" := "rs0"; "hosts" := "a | b";
                   "primary_host" := "c" ]} ]) as E
      by (vm_compute; reflexivity).
    split; [exact E|]. rewrite E. intros H.
    apply (f_equal (fun l : list dict =>
                      l !! 0 ≫= (.!! "replica_set_name"))) in H.
    vm_compute in H. discriminate H.
  - split; [reflexivity|].
    assert (parse_cluster_info self
              "setName: 'rs0' hosts: [ 'a,1', 'b' ] primary: 'c'"
            = [ {[ "replica_set_name" := "rs0"; "hosts" := "a | 1 | b";
                   "primary_host" := "c" ]} ]) as E
      by (vm_compute; reflexivity).
    split; [exact E|]. rewrite E. intros H.
    apply (f_equal (fun l : list dict => l !! 0 ≫= (.!! "hosts"))) in H.
    vm_compute in H. discriminate H.
Qed.

(** ** Parsing does not depend on what was parsed before *)

Lemma database_lines_config self1 self2 :
  config self1 = config self2 ->
  forall lines n acc,
    database_lines self1 n lines acc = database_lines self2 n lines acc.
Proof.
  intros Hc. induction lines as [|line lines IH]; intros n acc; simpl; [done|].
  unfold line_record. rewrite Hc. apply IH.
Qed.

(** C8: extraction is a function of the configuration and the content
    alone: two parser objects with the same configuration, whatever they
    parsed before, return equal record lists on equal content, in either
    mode; and [parse_file] called a second time on the same file returns
    the same result and leaves the parser as the first call left it. *)
Theorem parse_idempotent self1 self2 content :
  config self1 = config self2 ->
  parse_cluster_info self1 content = parse_cluster_info self2 content
  /\ parse_database_info self1 content = parse_database_info self2 content
  /\ forall fs file_path parse_type,
       (parse_file fs self1 file_path parse_type).1
         = (parse_file fs self2 file_path parse_type).1
       /\ parse_file fs (parse_file fs self1 file_path parse_type).2
            file_path parse_type
          = parse_file fs self1 file_path parse_type.
Proof.
  intros Hc.
  assert (forall s1 s2 c, config s1 = config s2 ->
            parse_cluster_info s1 c = parse_cluster_info s2 c) as Hcl.
  { intros s1 s2 c H. unfold parse_cluster_info. by rewrite H. }
  assert (forall s1 s2 c, config s1 = config s2 ->
            parse_database_info s1 c = parse_database_info s2 c) as Hdb.
  { intros s1 s2 c H. unfold parse_database_info.
    by apply database_lines_config. }
  split; [by apply Hcl|]. split; [by apply Hdb|].
  intros fs file_path parse_type. unfold parse_file.
  destruct (read_text_file fs file_path) as [e|text]; [done|].
  destruct (String.eqb parse_type "cluster"); simpl.
  { split; [f_equal; by apply Hcl|]. by rewrite (Hcl _ self1). }
  destruct (String.eqb parse_type "database"); simpl; [|done].
  split; [f_equal; by apply Hdb|]. by rewrite (Hdb _ self1).
Qed.

Lemma parse_idempotent_witness :
  let self1 := new_Parser main_config in
  let self2 :=
    set_parsed_data self1 [ {[ "replica_set_name" := "old" ]} ] in
  config self1 = config self2 /\
  parse_database_info self1 "** DATABASE: admin"
    = parse_database_info self2 "** DATABASE: admin".
Proof.
  intros self1 self2. split; [reflexivity|].
  apply (parse_idempotent self1 self2 "** DATABASE: admin"). reflexivity.
Defined.

(** ** The header: sorted union of the field names *)

Lemma str_le_alt a b :
  str_le a b <-> a = b \/ OrderedTypeEx.String_as_OT.lt a b.
Proof.
  unfold str_le, String.leb.
  destruct (String.compare a b) eqn:E; split; try done.
  - intros _. left. by apply String.compare_eq_iff.
  - intros _. right. by apply OrderedTypeEx.String_as_OT.cmp_lt.
  - intros [->|H].
    + pose proof (proj2 (OrderedTypeEx.String_as_OT.cmp_eq b b) eq_refl) as H.
      unfold OrderedTypeEx.String_as_OT.cmp in H. congruence.
    + apply OrderedTypeEx.String_as_OT.cmp_lt in H.
      unfold OrderedTypeEx.String_as_OT.cmp in H. congruence.
Qed.

#[global] Instance str_le_trans : Transitive str_le.
Proof.
  intros a b c. rewrite !str_le_alt.
  intros [->|Hab] [->|Hbc]; auto.
  right. eapply OrderedTypeEx.String_as_OT.lt_trans; eauto.
Qed.

#[global] Instance str_le_total : Total str_le.
Proof. intros a b. apply String.leb_total. Qed.

Lemma sorted_fields_sorted l : StronglySorted str_le (sorted_fields l).
Proof. apply StronglySorted_merge_sort; apply _. Qed.

Lemma sorted_fields_NoDup l : NoDup (sorted_fields l).
Proof.
  unfold sorted_fields. rewrite merge_sort_Permutation. apply NoDup_elements.
Qed.

Lemma elem_of_sorted_fields l k :
  k ∈ sorted_fields l <-> exists r : dict, r ∈ l /\ is_Some (r !! k).
Proof.
  unfold sorted_fields, field_union.
  rewrite merge_sort_Permutation, elem_of_elements, elem_of_union_list.
  split.
  - intros (X & (r & -> & Hr)%list_elem_of_fmap & Hk).
    exists r. split; [done|]. by apply elem_of_dom.
  - intros (r & Hr & Hk). exists (dom r). split.
    + apply list_elem_of_fmap. eauto.
    + by apply elem_of_dom.
Qed.

(** ** Writing rows *)

Lemma zip_self_lookup (names : list string) k :
  k ∈ names ->
  (list_to_map (zip names names) : dict) !! k = Some k.
Proof.
  induction names as [|a names IH]; simpl.
  - intros H. by apply elem_of_nil in H.
  - intros [->|H]%elem_of_cons.
    + apply lookup_insert_eq.
    + destruct (decide (a = k)) as [->|Hne].
      * apply lookup_insert_eq.
      * rewrite lookup_insert_ne by done. auto.
Qed.

Lemma zip_self_dom (names : list string) :
  dom (list_to_map (zip names names) : dict) = list_to_set names.
Proof.
  induction names as [|a names IH]; simpl.
  - apply dom_empty_L.
  - by rewrite dom_insert_L, IH.
Qed.

(** The header row is the list of field names itself. *)
Lemma header_row wr :
  _dict_to_list wr (Some (list_to_map (zip (fieldnames wr) (fieldnames wr))))
  = inr (fieldnames wr).
Proof.
  unfold _dict_to_list. rewrite zip_self_dom.
  rewrite decide_True by done. f_equal.
  transitivity (map id (fieldnames wr)); [|apply map_id].
  apply map_ext_in. intros k Hk%list_elem_of_In.
  by rewrite zip_self_lookup.
Qed.

(** A record all of whose fields are columns becomes the row of its
    values, with the empty string where it has no value. *)
Lemma record_row wr (d : dict) :
  dom d ⊆ list_to_set (fieldnames wr) ->
  _dict_to_list wr (Some d)
  = inr ((fun k => default EmptyString (d !! k)) <$> fieldnames wr).
Proof. intros H. unfold _dict_to_list. by rewrite decide_True. Qed.

Lemma emit_ok h r w n :
  capacity w = S n ->
  exists w', emit h r w = (inr tt, w') /\
             written h w' = written h w ++ [r] /\
             capacity w' = n.
Proof.
  intros Hc. unfold emit. rewrite Hc. eexists. split; [reflexivity|].
  destruct h as [|path]; simpl; [done|].
  by rewrite lookup_insert_eq.
Qed.

Lemma emit_opened h r w : opened (emit h r w).2 = opened w.
Proof. unfold emit. destruct (capacity w); [done|]. by destruct h. Qed.

Lemma writerow_opened wr d w : opened (writerow wr d w).2 = opened w.
Proof.
  unfold writerow. destruct (_dict_to_list wr (Some d)); [done|].
  apply emit_opened.
Qed.

Lemma bind_unit_unfold (m k : IO unit) w :
  (m ;; k) w = match m w with
               | (inr _, w') => k w'
               | (inl e, w') => (inl e, w')
               end.
Proof. reflexivity. Qed.

Lemma writerows_opened wr rows : forall w,
  opened (writerows wr rows w).2 = opened w.
Proof.
  induction rows as [|d rows IH]; intros w; [done|].
  cbn [writerows]. rewrite bind_unit_unfold.
  pose proof (writerow_opened wr d w) as H.
  destruct (writerow wr d w) as [[e|[]] w']; simpl in *; [done|].
  by rewrite IH.
Qed.

Lemma write_body_opened wr l w :
  opened ((writeheader wr ;; writerows wr l) w).2 = opened w.
Proof.
  rewrite bind_unit_unfold. unfold writeheader.
  pose proof (writerow_opened wr
                (list_to_map (zip (fieldnames wr) (fieldnames wr))) w) as H.
  destruct (writerow wr _ w) as [[e|[]] w']; simpl in *; [done|].
  by rewrite writerows_opened.
Qed.

(** With room for them, the rows of the records are written one after
    the other. *)
Lemma writerows_ok wr rows : forall w,
  Forall (fun d : dict => dom d ⊆ list_to_set (fieldnames wr)) rows ->
  length rows <= capacity w ->
  exists w', writerows wr rows w = (inr tt, w') /\
             written (out wr) w' =
               written (out wr) w ++
               ((fun d : dict =>
                   (fun k => default EmptyString (d !! k)) <$> fieldnames wr)
                  <$> rows).
Proof.
  induction rows as [|d rows IH]; intros w Hdom Hcap.
  - exists w. split; [done|]. by rewrite app_nil_r.
  - apply Forall_cons in Hdom as [Hd Hdom]. simpl in Hcap.
    destruct (capacity w) as [|n] eqn:En; [lia|].
    cbn [writerows]. rewrite bind_unit_unfold. unfold writerow.
    rewrite record_row by done.
    destruct (emit_ok (out wr)
                ((fun k => default EmptyString (d !! k)) <$> fieldnames wr)
                w n En) as (w1 & -> & Hw1 & Hc1).
    destruct (IH w1 Hdom) as (w2 & -> & Hw2); [lia|].
    exists w2. split; [done|].
    rewrite Hw2, Hw1, fmap_cons, <- app_assoc. done.
Qed.

Lemma record_columns (l : list dict) :
  Forall (fun d : dict => dom d ⊆ list_to_set (sorted_fields l)) l.
Proof.
  apply Forall_forall. intros d Hd k Hk.
  apply elem_of_list_to_set, elem_of_sorted_fields.
  exists d. split; [done|]. by apply elem_of_dom.
Qed.

(** The try block on an acquired sink: header, then the rows. *)
Lemma write_body_ok h (l : list dict) w :
  length l < capacity w ->
  let wr := {| out := h; fieldnames := sorted_fields l |} in
  exists w', (writeheader wr ;; writerows wr l) w = (inr tt, w') /\
             written h w' =
               written h w ++
               sorted_fields l ::
               ((fun d : dict =>
                   (fun k => default EmptyString (d !! k)) <$> sorted_fields l)
                  <$> l).
Proof.
  intros Hcap wr. rewrite bind_unit_unfold.
  unfold writeheader, writerow. rewrite header_row.
  destruct (capacity w) as [|n] eqn:En; [lia|].
  destruct (emit_ok (out wr) (fieldnames wr) w n En) as (w1 & -> & Hw1 & Hc1).
  destruct (writerows_ok wr l w1) as (w2 & -> & Hw2).
  - apply record_columns.
  - lia.
  - exists w2. split; [done|]. simpl in Hw1, Hw2.
    by rewrite Hw2, Hw1, <- app_assoc.
Qed.

Lemma open_w_ok path w :
  path ∉ readonly w ->
  exists w1, open_w path w = (inr (File path), w1) /\
             written (File path) w1 = [] /\
             capacity w1 = capacity w /\
             opened w1 = path :: opened w.
Proof.
  intros H. unfold open_w. rewrite decide_False by done.
  eexists. split; [reflexivity|]. simpl. by rewrite lookup_insert_eq.
Qed.

(** C7: with no record [write_to_csv] returns normally and leaves every
    sink as it was.  Otherwise, when the sink can be opened and takes the
    rows, it holds (after what standard output held before; a named file
    starts empty) a header row, which is the field names of all records
    sorted and without repetition, and then one row per record in input
    order, the cell of a field the record lacks being the empty string. *)
Theorem write_to_csv_rows self output_file w :
  (parsed_data self = [] -> write_to_csv self output_file w = (inr tt, w))
  /\ (parsed_data self <> [] ->
      (forall path, output_file = Some path -> path ∉ readonly w) ->
      length (parsed_data self) < capacity w ->
      let header := sorted_fields (parsed_data self) in
      StronglySorted str_le header /\ NoDup header /\
      (forall k, k ∈ header <->
                 exists r : dict, r ∈ parsed_data self /\ is_Some (r !! k)) /\
      written (sink_of output_file) (write_to_csv self output_file w).2 =
        match output_file with
        | None => stdout w
        | Some _ => []
        end ++
        header ::
        ((fun r : dict => (fun k => default EmptyString (r !! k)) <$> header)
           <$> parsed_data self)
      /\ (output_file = None ->
          (write_to_csv self output_file w).1 = inr tt)).
Proof.
  split.
  { intros H. unfold write_to_csv. by rewrite H. }
  intros Hne Hopen Hcap header.
  split; [apply sorted_fields_sorted|].
  split; [apply sorted_fields_NoDup|].
  split; [apply elem_of_sorted_fields|].
  unfold write_to_csv. fold header.
  destruct (parsed_data self) as [|d ds] eqn:Ed; [done|].
  destruct output_file as [path|].
  - destruct (open_w_ok path w) as (w1 & -> & Hw1 & Hc1 & Ho1); [by apply Hopen|].
    destruct (write_body_ok (File path) (d :: ds) w1) as (w2 & Hb & Hw2);
      [by rewrite Hc1|].
    fold header in Hb, Hw2. cbv zeta in Hb. rewrite Hb. cbn -[written header].
    split; [|done]. by rewrite Hw2, Hw1.
  - destruct (write_body_ok Stdout (d :: ds) w) as (w2 & Hb & Hw2); [done|].
    fold header in Hb, Hw2. cbv zeta in Hb. rewrite Hb. cbn -[written header].
    split; [|done]. exact Hw2.
Qed.

Lemma write_to_csv_rows_witness :
  let self :=
    set_parsed_data (new_Parser main_config)
      [ {[ "hosts" := "a | b"; "primary_host" := "a" ]};
        {[ "replica_set_name" := "rs0" ]} ] in
  let w := {| stdout := []; files := ∅; opened := []; readonly := ∅;
              capacity := 3 |} in
  length (parsed_data self) < capacity w /\
  stdout (write_to_csv self None w).2 =
    [ [ "hosts"; "primary_host"; "replica_set_name" ];
      [ "a | b"; "a"; EmptyString ];
      [ EmptyString; EmptyString; "rs0" ] ].
Proof.
  intros self w. split; [simpl; lia|].
  destruct (write_to_csv_rows self None w) as [_ H].
  destruct H as (_ & _ & _ & H & _).
  - discriminate.
  - intros path. discriminate.
  - simpl. lia.
  - change (written (sink_of None) (write_to_csv self None w).2)
      with (stdout (write_to_csv self None w).2) in H.
    rewrite H. vm_compute. reflexivity.
Defined.

(** ** Writing to a named file *)

(** C3 (what the code does): with records to write and a named output
    file, [write_to_csv] never returns normally.  When the file can be
    opened, whether the rows are written or not, the call ends with the
    [AttributeError] of [_dict_to_list(None)] in the [finally] block and
    the file is still open; when it cannot, the [IOError] of [open] is
    replaced there by an [UnboundLocalError]. *)
Theorem write_to_csv_named_file self path w :
  parsed_data self <> [] ->
  let r := write_to_csv self (Some path) w in
  (path ∉ readonly w -> r.1 = inl AttributeError /\ path ∈ opened r.2)
  /\ (path ∈ readonly w -> r.1 = inl UnboundLocalError)
  /\ r.1 <> inr tt /\ r.1 <> inl IOError.
Proof.
  intros Hne r. subst r. unfold write_to_csv.
  destruct (parsed_data self) as [|d ds]; [done|].
  unfold open_w. destruct (decide (path ∈ readonly w)) as [Hro|Hro].
  - simpl. split; [done|]. split; done.
  - cbv beta iota zeta.
    match goal with
    | |- context [(writeheader ?wr ;; writerows ?wr ?l) ?w1] =>
        pose proof (write_body_opened wr l w1) as Hb;
        destruct ((writeheader wr ;; writerows wr l) w1) as [res w2]
    end.
    simpl in Hb |- *. split; [|split; [done|by split]].
    intros _. split; [done|]. rewrite Hb. by left.
Qed.

Lemma write_to_csv_named_file_witness :
  let self :=
    set_parsed_data (new_Parser main_config)
      [ {[ "line_number" := "1"; "database_name" := "admin" ]} ] in
  let w := {| stdout := []; files := ∅; opened := []; readonly := ∅;
              capacity := 10 |} in
  parsed_data self <> [] /\
  ("out.csv" ∉ readonly w) /\
  (write_to_csv self (Some "out.csv") w).1 = inl AttributeError /\
  ("out.csv" ∈ opened (write_to_csv self (Some "out.csv") w).2) /\
  files (write_to_csv self (Some "out.csv") w).2 !! "out.csv" =
    Some [ [ "database_name"; "line_number" ]; [ "admin"; "1" ] ].
Proof.
  intros self w.
  assert (parsed_data self <> []) as Hne by discriminate.
  assert ("out.csv" ∉ readonly w) as Hro by (simpl; set_solver).
  split; [exact Hne|]. split; [exact Hro|].
  destruct (write_to_csv_named_file self "out.csv" w Hne) as (H & _).
  destruct (H Hro) as [H1 H2].
  split; [exact H1|]. split; [exact H2|].
  vm_compute. reflexivity.
Defined.

(** * Further properties *)

(** ** Standard output with limited room *)

Lemma world_eta w :
  w = {| stdout := stdout w; files := files w; opened := opened w;
         readonly := readonly w; capacity := capacity w |}.
Proof. by destruct w. Qed.

(** Rows go out one by one until the sink is full; the first refused row
    ends the loop with the sink's error. *)
Lemma writerows_stdout wr rows :
  out wr = Stdout ->
  forall w,
    Forall (fun d : dict => dom d ⊆ list_to_set (fieldnames wr)) rows ->
    writerows wr rows w =
      (if decide (length rows <= capacity w) then inr tt else inl IOError,
       {| stdout := stdout w ++
                    take (capacity w)
                      ((fun d : dict =>
                          (fun k => default EmptyString (d !! k))
                            <$> fieldnames wr) <$> rows);
          files := files w; opened := opened w; readonly := readonly w;
          capacity := capacity w - length rows |}).
Proof.
  intros Hout. induction rows as [|d rows IH]; intros w Hdom.
  - rewrite decide_True by (simpl; lia).
    rewrite fmap_nil, take_nil, app_nil_r. cbn [length].
    rewrite Nat.sub_0_r. by rewrite <- world_eta.
  - apply Forall_cons in Hdom as [Hd Hdom].
    cbn [writerows]. rewrite bind_unit_unfold. unfold writerow.
    rewrite record_row by done. unfold emit. rewrite Hout.
    destruct (capacity w) as [|n] eqn:En.
    + rewrite decide_False by (simpl; lia). simpl. rewrite app_nil_r.
      rewrite <- En. by rewrite <- world_eta.
    + rewrite IH by done. cbn [stdout files opened readonly capacity].
      f_equal.
      * destruct (decide (length rows <= n)), (decide (length (d :: rows) <= S n));
          simpl in *; try done; lia.
      * f_equal. by rewrite fmap_cons, <- app_assoc.
Qed.

(** The whole effect of a call that writes records to standard output. *)
Lemma write_to_csv_stdout_eq self w :
  parsed_data self <> [] ->
  let header := sorted_fields (parsed_data self) in
  let rows :=
    header ::
    ((fun r : dict => (fun k => default EmptyString (r !! k)) <$> header)
       <$> parsed_data self) in
  write_to_csv self None w =
    (if decide (length rows <= capacity w) then inr tt else inl IOError,
     {| stdout := stdout w ++ take (capacity w) rows;
        files := files w; opened := opened w; readonly := readonly w;
        capacity := capacity w - length rows |}).
Proof.
  intros Hne header rows. unfold write_to_csv.
  destruct (parsed_data self) as [|d ds] eqn:Ed; [done|].
  fold header. cbv beta iota zeta.
  rewrite bind_unit_unfold. unfold writeheader, writerow.
  rewrite header_row. unfold emit. cbn [out fieldnames].
  destruct (capacity w) as [|n] eqn:En.
  - rewrite decide_False by (simpl; lia). simpl. rewrite app_nil_r.
    rewrite <- En. by rewrite <- world_eta.
  - rewrite (writerows_stdout {| out := Stdout; fieldnames := header |}
               (d :: ds)); [|done|apply record_columns].
    cbn [stdout files opened readonly capacity fieldnames out].
    f_equal.
    + subst rows.
      destruct (decide (length (d :: ds) <= n)),
               (decide (length (header :: _) <= S n));
        cbn [length] in *; rewrite ?length_fmap in *; cbn [length] in *;
        try done; lia.
    + f_equal; [by rewrite <- app_assoc|].
      subst rows. cbn [length]. by rewrite length_fmap.
Qed.

(** X1: writing records to standard output hands over the header and the
    record rows in order for as long as the sink takes rows, and nothing
    after the first refused row; the call returns normally if all rows
    went out and raises the sink's [IOError] otherwise (never the
    [ValueError] of an unknown field); named files and open handles are
    not touched. *)
Theorem write_to_csv_stdout self w :
  parsed_data self <> [] ->
  let header := sorted_fields (parsed_data self) in
  let rows :=
    header ::
    ((fun r : dict => (fun k => default EmptyString (r !! k)) <$> header)
       <$> parsed_data self) in
  let r := write_to_csv self None w in
  stdout r.2 = stdout w ++ take (capacity w) rows
  /\ (length rows <= capacity w -> r.1 = inr tt)
  /\ (capacity w < length rows -> r.1 = inl IOError)
  /\ files r.2 = files w /\ opened r.2 = opened w.
Proof.
  intros Hne header rows r. subst r.
  rewrite (write_to_csv_stdout_eq self w Hne). fold header. fold rows.
  cbn [fst snd stdout files opened].
  split; [done|]. split; [|split; [|done]].
  - intros H. by rewrite decide_True.
  - intros H. rewrite decide_False by lia. done.
Qed.

Lemma write_to_csv_stdout_witness :
  let self :=
    set_parsed_data (new_Parser main_config)
      [ {[ "line_number" := "3"; "database_name" := "admin" ]};
        {[ "line_number" := "7"; "database_name" := "local" ]} ] in
  let w := {| stdout := []; files := ∅; opened := []; readonly := ∅;
              capacity := 2 |} in
  parsed_data self <> [] /\
  (write_to_csv self None w).1 = inl IOError /\
  stdout (write_to_csv self None w).2 =
    [ [ "database_name"; "line_number" ]; [ "admin"; "3" ] ].
Proof.
  intros self w.
  assert (parsed_data self <> []) as Hne by discriminate.
  split; [exact Hne|].
  destruct (write_to_csv_stdout self w Hne) as (Hout & _ & Herr & _).
  split; [apply Herr; vm_compute; lia|].
  rewrite Hout. vm_compute. reflexivity.
Defined.

(** ** [parse_file] *)

(** X2: [parse_file] never changes the configuration; when it raises,
    either the read raised that exception or the parse type is neither
    ['cluster'] nor ['database'] (a [ValueError]), and in both cases the
    parser, with the records of an earlier parse, is left as it was; when
    it returns, it returns the records it has stored, those of the file's
    content in the mode asked for. *)
Theorem parse_file_outcome fs self file_path parse_type :
  let r := parse_file fs self file_path parse_type in
  config r.2 = config self
  /\ (forall e, r.1 = inl e ->
        r.2 = self /\
        (fs file_path = inl e \/
         (e = ValueError /\ (exists content, fs file_path = inr content) /\
          parse_type <> "cluster" /\ parse_type <> "database")))
  /\ (forall d, r.1 = inr d ->
        parsed_data r.2 = d /\
        exists content, fs file_path = inr content /\
          ((parse_type = "cluster" /\ d = parse_cluster_info self content) \/
           (parse_type = "database" /\ d = parse_database_info self content))).
Proof.
  unfold parse_file, read_text_file.
  destruct (fs file_path) as [e0|content]; simpl.
  { split; [done|]. split; [|done]. intros e [= <-]. by split; [|left]. }
  destruct (String.eqb_spec parse_type "cluster") as [->|Hc]; simpl.
  { split; [done|]. split; [done|]. intros d [= <-]. split; [done|].
    exists content. split; [done|]. by left. }
  destruct (String.eqb_spec parse_type "database") as [->|Hd]; simpl.
  { split; [done|]. split; [done|]. intros d [= <-]. split; [done|].
    exists content. split; [done|]. by right. }
  split; [done|]. split; [|done]. intros e [= <-]. split; [done|].
  right. split; [done|]. split; [by exists content|done].
Qed.

Lemma parse_file_outcome_witness :
  let fs : FileSystem := fun path =>
    if String.eqb path "rs.log" then inr "setName: 'rs0'"
    else inl FileNotFoundError in
  let self :=
    set_parsed_data (new_Parser main_config) [ {[ "old" := "x" ]} ] in
  (parse_file fs self "rs.log" "tables").1 = inl ValueError /\
  (parse_file fs self "rs.log" "tables").2 = self /\
  (parse_file fs self "gone.log" "cluster").2 = self /\
  parsed_data (parse_file fs self "rs.log" "cluster").2
    = [ {[ "replica_set_name" := "rs0" ]} ].
Proof.
  intros fs self.
  split; [reflexivity|]. split.
  { apply (parse_file_outcome fs self "rs.log" "tables") with ValueError.
    reflexivity. }
  split.
  { apply (parse_file_outcome fs self "gone.log" "cluster")
      with FileNotFoundError. reflexivity. }
  apply (parse_file_outcome fs self "rs.log" "cluster").
  vm_compute. reflexivity.
Defined.

(** ** Stripping twice, and what stripping keeps *)

Section StripFacts.
Variable p : ascii -> bool.

Lemma rstrip_by_idem s :
  Str.rstrip_by p (Str.rstrip_by p s) = Str.rstrip_by p s.
Proof.
  induction s as [|c s IH]; simpl; [done|].
  destruct (Str.is_empty (Str.rstrip_by p s) && p c) eqn:E; [done|].
  simpl. by rewrite IH, E.
Qed.

(** A text that does not begin in the set still does not after [rstrip]. *)
Lemma lstrip_rstrip_fixed t :
  Str.lstrip_by p t = t -> Str.lstrip_by p (Str.rstrip_by p t) = Str.rstrip_by p t.
Proof.
  destruct t as [|c t]; [done|]. simpl.
  destruct (p c) eqn:Hc.
  - intros H. exfalso.
    assert (forall s, String.length (Str.lstrip_by p s) <= String.length s) as Hlen.
    { induction s as [|d s IHs]; simpl; [done|]. destruct (p d); simpl; lia. }
    pose proof (Hlen t) as Ht. rewrite H in Ht. simpl in Ht. lia.
  - intros _. rewrite andb_false_r. simpl. by rewrite Hc.
Qed.

Lemma lstrip_by_idem s :
  Str.lstrip_by p (Str.lstrip_by p s) = Str.lstrip_by p s.
Proof.
  induction s as [|c s IH]; simpl; [done|].
  destruct (p c) eqn:Hc; [done|]. simpl. by rewrite Hc.
Qed.

Lemma strip_by_idem s : Str.strip_by p (Str.strip_by p s) = Str.strip_by p s.
Proof.
  unfold Str.strip_by.
  rewrite (lstrip_rstrip_fixed (Str.lstrip_by p s)) by apply lstrip_by_idem.
  apply rstrip_by_idem.
Qed.

Variable q : ascii -> bool.

Lemma all_lstrip_by s : Str.all q s = true -> Str.all q (Str.lstrip_by p s) = true.
Proof.
  induction s as [|c s IH]; simpl; [done|].
  intros [Hc Hs]%andb_true_iff. destruct (p c); [auto|].
  simpl. by rewrite Hc, Hs.
Qed.

Lemma all_rstrip_by s : Str.all q s = true -> Str.all q (Str.rstrip_by p s) = true.
Proof.
  induction s as [|c s IH]; simpl; [done|].
  intros [Hc Hs]%andb_true_iff.
  destruct (Str.is_empty (Str.rstrip_by p s) && p c); [done|].
  simpl. by rewrite Hc, IH.
Qed.

Lemma all_strip_by s : Str.all q s = true -> Str.all q (Str.strip_by p s) = true.
Proof. intros H. by apply all_rstrip_by, all_lstrip_by. Qed.
End StripFacts.

(** ** What the registry's patterns capture *)

(** Inside the group a repetition captures characters of its class only,
    as long as what follows the group captures nothing. *)
Lemma star_true_all k cont s g :
  (forall s' g', cont s' = Some g' -> g' = EmptyString) ->
  star k cont true s = Some g -> Str.all (in_class k) g = true.
Proof.
  intros Hcont. revert g. induction s as [|c s IH]; intros g; simpl.
  - by intros ->%Hcont.
  - destruct (in_class k c) eqn:Hc; [|by intros ->%Hcont].
    destruct (star k cont true s) as [g'|] eqn:E; [|by intros ->%Hcont].
    intros [= <-]. simpl. by rewrite Hc, (IH g').
Qed.

Lemma search_Some_at p s g :
  search p s = Some g ->
  exists pre s0, s = pre +:+ s0 /\ match_here p false s0 = Some g.
Proof.
  induction s as [|c s IH]; rewrite search_unfold;
    destruct (match_here p false _) as [g0|] eqn:E; try done.
  - intros [= <-]. by exists EmptyString, EmptyString.
  - intros [= <-]. by exists EmptyString, (String c s).
  - intros (pre & s0 & -> & H)%IH. by exists (String c pre), s0.
Qed.

Lemma star_false_split k cont s g :
  star k cont false s = Some g ->
  exists ws s', s = ws +:+ s' /\ Str.all (in_class k) ws = true /\
                cont s' = Some g.
Proof.
  induction s as [|c s IH]; simpl.
  - intros H. by exists EmptyString, EmptyString.
  - destruct (in_class k c) eqn:Hc; [|intros H; by exists EmptyString, (String c s)].
    destruct (star k cont false s) as [g'|] eqn:E;
      [|intros H; by exists EmptyString, (String c s)].
    intros [= <-]. destruct (IH eq_refl) as (ws & s' & -> & Hws & Hs').
    exists (String c ws), s'. simpl. by rewrite Hc, Hws.
Qed.

(** A quoted field ([setName], [primary]) captures a non-empty text
    without a quote. *)
Lemma quoted_group kw content g :
  search (lits kw ++ [Star CSpace; Lit quote; GOpen;
                      Plus (CNeg (CChar quote)); GClose; Lit quote])
    content = Some g ->
  g <> EmptyString /\ Str.free_of "'" g = true.
Proof.
  intros (pre & s0 & _ & H)%search_Some_at.
  apply match_here_lits_Some in H as (s1 & _ & H).
  apply star_false_Some in H as (s2 & H). simpl in H.
  destruct s2 as [|d s2]; [done|].
  destruct (Ascii.eqb d quote); [|done].
  rewrite keep_false_fmap in H.
  destruct s2 as [|e s2]; [done|].
  destruct (negb (Ascii.eqb e quote)) eqn:He; [|done].
  destruct (star _ _ true s2) as [g'|] eqn:E; [|done].
  injection H as <-. split; [done|].
  apply star_true_all in E.
  - unfold Str.free_of. simpl. unfold quote in He. rewrite orb_false_r, He.
    simpl. eapply all_impl; [|exact E]. intros c. simpl.
    by rewrite orb_false_r.
  - intros s' g0. simpl. destruct s' as [|c s']; [done|].
    destruct (Ascii.eqb c quote); [|done]. by intros [= <-].
Qed.

(** The hosts pattern captures a text without a closing bracket. *)
Lemma hosts_group content g :
  search re_hosts content = Some g -> Str.free_of "]" g = true.
Proof.
  intros (pre & s0 & _ & H)%search_Some_at.
  apply match_here_lits_Some in H as (s1 & _ & H).
  apply star_false_Some in H as (s2 & H). simpl in H.
  destruct s2 as [|d s2]; [done|].
  destruct (Ascii.eqb d "["); [|done].
  rewrite keep_false_fmap in H.
  apply star_false_Some in H as (s3 & H).
  apply star_true_all in H.
  - eapply all_impl; [|exact H]. intros c. simpl. by rewrite orb_false_r.
  - intros s' g0 (s4 & Hs4)%star_false_Some. simpl in Hs4.
    destruct s4 as [|c s4]; [done|].
    destruct (Ascii.eqb c "]"); [|done]. by injection Hs4 as <-.
Qed.

(** ** The values of a cluster record *)

(** The pieces of a split hold the characters of the text other than the
    separator. *)
Lemma split_pieces sep q s :
  Str.all q s = true ->
  Forall (fun piece =>
            Str.all (fun c => q c && negb (Ascii.eqb c sep)) piece = true)
    (Str.split sep s).
Proof.
  induction s as [|c s IH]; simpl; [by repeat constructor|].
  intros [Hc Hs]%andb_true_iff. specialize (IH Hs).
  destruct (Ascii.eqb c sep) eqn:E; [by constructor|].
  destruct (Str.split sep s) as [|piece ps] eqn:Es;
    [by apply split_nonempty in Es|].
  apply Forall_cons in IH as [Hp Hps]. constructor; [|done].
  simpl. by rewrite Hc, E, Hp.
Qed.

Lemma all_join q sep l :
  Str.all q sep = true -> Forall (fun x => Str.all q x = true) l ->
  Str.all q (Str.join sep l) = true.
Proof.
  intros Hsep. induction l as [|x l IH]; [done|].
  intros [Hx Hl]%Forall_cons. specialize (IH Hl).
  destruct l as [|y l]; [done|].
  change (Str.join sep (x :: y :: l)) with (x +:+ sep +:+ Str.join sep (y :: l)).
  by rewrite !all_append, Hx, Hsep, IH.
Qed.

Lemma hosts_value_free g :
  Str.free_of "]" g = true -> Str.free_of ",]" (hosts_value g) = true.
Proof.
  intros Hg. unfold hosts_value, Str.free_of.
  apply all_join; [reflexivity|].
  apply Forall_forall. intros v Hv%list_elem_of_In.
  apply in_map_iff in Hv as (piece & <- & Hin).
  apply filter_In in Hin as [Hin%list_elem_of_In _].
  pose proof (split_pieces comma _ g Hg) as Hp.
  rewrite Forall_forall in Hp. specialize (Hp piece Hin).
  unfold Str.strip_chars, Str.strip. do 2 apply all_strip_by.
  eapply all_impl; [|exact Hp]. intros c. simpl. unfold comma.
  destruct (Ascii.eqb c ","), (Ascii.eqb c "]"); done.
Qed.

(** A field of the returned record comes from a match of its pattern. *)
Lemma cluster_record_lookup self content (r : dict) f v :
  NoDup (cluster (config self)).*1 ->
  r ∈ parse_cluster_info self content ->
  r !! f = Some v ->
  exists p g, (f, p) ∈ cluster (config self) /\
              search p content = Some g /\ v = field_value f g.
Proof.
  intros Hnd Hr Hv.
  destruct (parse_cluster_info_cases self content) as [[_ E] | [_ E]];
    rewrite E in Hr.
  { by apply elem_of_nil in Hr. }
  apply list_elem_of_singleton in Hr as ->.
  assert (is_Some (fold_left (cluster_field content)
                     (cluster (config self)) ∅ !! f)) as Hs by eauto.
  apply cluster_fold_is_Some in Hs as [[? Hs] | (p & Hin & [g Hg])].
  { by rewrite lookup_empty in Hs. }
  exists p, g. split; [done|]. split; [done|].
  rewrite (cluster_fold_lookup content _ ∅ f p g Hnd Hin Hg) in Hv.
  by injection Hv.
Qed.

(** X3: in a record that [parse_cluster_info] returns for the registry's
    patterns, the replica set name and the primary host hold no quote and
    no whitespace at either end, and the hosts value holds neither a comma
    nor a closing bracket. *)
Theorem parse_cluster_info_values self content (r : dict) :
  cluster (config self) = CLUSTER_REGEXES ->
  r ∈ parse_cluster_info self content ->
  (forall v, r !! "replica_set_name" = Some v ->
             Str.free_of "'" v = true /\ Str.strip v = v)
  /\ (forall v, r !! "primary_host" = Some v ->
                Str.free_of "'" v = true /\ Str.strip v = v)
  /\ (forall v, r !! "hosts" = Some v -> Str.free_of ",]" v = true).
Proof.
  intros Hc Hr.
  assert (forall f v, r !! f = Some v ->
            exists p g, (f, p) ∈ CLUSTER_REGEXES /\
                        search p content = Some g /\ v = field_value f g)
    as Hlook.
  { intros f v Hv. rewrite <- Hc.
    apply (cluster_record_lookup self content r f v); [|done|done].
    rewrite Hc. apply CLUSTER_REGEXES_NoDup. }
  assert (forall g, Str.free_of "'" g = true ->
            Str.free_of "'" (Str.strip g) = true /\
            Str.strip (Str.strip g) = Str.strip g) as Hstrip.
  { intros g Hg. split; [by apply all_strip_by|apply strip_by_idem]. }
  split; [|split]; intros v Hv;
    destruct (Hlook _ v Hv) as (p & g & Hin & Hs & ->);
    unfold CLUSTER_REGEXES in Hin;
    repeat (apply elem_of_cons in Hin as [[= ->] | Hin]);
    try (by apply elem_of_nil in Hin);
    unfold field_value; cbn [String.eqb Ascii.eqb Bool.eqb].
  - apply Hstrip. by apply (quoted_group "setName:" content).
  - apply Hstrip. by apply (quoted_group "primary:" content).
  - apply hosts_value_free. by apply hosts_group in Hs.
Qed.

Lemma parse_cluster_info_values_witness :
  let self := new_Parser main_config in
  let content := "setName: ' rs0 ', hosts: [ 'a', 'b' ]" in
  let r : dict := {[ "replica_set_name" := "rs0"; "hosts" := "a | b" ]} in
  r ∈ parse_cluster_info self content /\
  Str.strip "rs0" = "rs0" /\ Str.free_of ",]" "a | b" = true.
Proof.
  intros self content r.
  assert (r ∈ parse_cluster_info self content) as Hr.
  { replace (parse_cluster_info self content) with [r]
      by (vm_compute; reflexivity). by left. }
  split; [exact Hr|].
  destruct (parse_cluster_info_values self content r eq_refl Hr)
    as (H1 & _ & H3).
  split; [apply (H1 "rs0")|apply (H3 "a | b")]; vm_compute; reflexivity.
Defined.

(** ** The names and numbers of database records *)

(** Inside the group, to its end, a repetition takes the whole run of its
    class. *)
Lemma star_true_run k s :
  exists g post,
    star k (match_here [GClose] true) true s = Some g /\
    s = g +:+ post /\ Str.all (in_class k) g = true /\
    match post with
    | String c _ => in_class k c = false
    | EmptyString => True
    end.
Proof.
  induction s as [|c s (g & post & E & -> & Hg & Hpost)]; cbn [star].
  - by exists EmptyString, EmptyString.
  - destruct (in_class k c) eqn:Hc.
    + rewrite E. exists (String c g), post. simpl. by rewrite Hc, Hg.
    + by exists EmptyString, (String c (g +:+ post)).
Qed.

(** The database pattern finds the marker, skips whitespace and captures
    the run of other characters up to the next whitespace or the end. *)
Lemma database_name_capture line g :
  search re_database_name line = Some g ->
  exists pre ws post,
    line = pre +:+ "** DATABASE:" +:+ ws +:+ g +:+ post /\
    Str.all Str.isspace ws = true /\
    g <> EmptyString /\
    Str.all (fun c => negb (Str.isspace c)) g = true /\
    match post with
    | String c _ => Str.isspace c = true
    | EmptyString => True
    end.
Proof.
  intros (pre & s0 & -> & H)%search_Some_at.
  apply match_here_lits_Some in H as (s1 & -> & H).
  apply star_false_split in H as (ws & s2 & -> & Hws & H). simpl in H.
  destruct s2 as [|d s2]; [done|].
  destruct (negb (Str.isspace d)) eqn:Hd; [|done].
  destruct (star_true_run (CNeg CSpace) s2) as (g' & post & E & -> & Hg' & Hp).
  match type of H with
  | context [star ?k ?c true ?s] =>
      change (star k c true s)
        with (star (CNeg CSpace) (match_here [GClose] true) true s) in H
  end.
  rewrite E in H. injection H as <-.
  exists pre, ws, post. split; [done|]. split; [done|]. split; [done|].
  split; [simpl; by rewrite Hd|].
  destruct post as [|c post]; [done|]. simpl in Hp.
  by apply negb_false_iff in Hp.
Qed.

Lemma elem_of_filter_imap {A B} (P : B -> bool) (f : nat -> A -> B) l x :
  x ∈ List.filter P (imap f l) ->
  exists i a, l !! i = Some a /\ x = f i a /\ P x = true.
Proof.
  intros [Hin HP]%list_elem_of_In%filter_In.
  apply list_elem_of_In, elem_of_lookup_imap in Hin as (i & a & -> & Ha).
  eauto.
Qed.

(** X4: with the registry's pattern every record of
    [parse_database_info] belongs to a line of the trimmed content that
    holds the marker, then whitespace, then the record's name, and the
    name is not empty, holds no whitespace and ends where the line ends or
    whitespace begins; the record's line number is that line's 1-based
    index. *)
Theorem parse_database_info_capture self content (r : dict) :
  database (config self) = DATABASE_REGEXES ->
  r ∈ parse_database_info self content ->
  exists i line name pre ws post,
    Str.split newline (Str.strip content) !! i = Some line /\
    r = {[ "line_number" := Str.of_nat (S i); "database_name" := name ]} /\
    line = pre +:+ "** DATABASE:" +:+ ws +:+ name +:+ post /\
    Str.all Str.isspace ws = true /\
    name <> EmptyString /\
    Str.all (fun c => negb (Str.isspace c)) name = true /\
    match post with
    | String c _ => Str.isspace c = true
    | EmptyString => True
    end.
Proof.
  intros Hc Hr. unfold parse_database_info in Hr.
  rewrite database_lines_filter in Hr. simpl in Hr.
  apply elem_of_filter_imap in Hr as (i & line & Hi & -> & Hname).
  rewrite line_record_registry in Hname |- * by done.
  destruct (search re_database_name line) as [g|] eqn:E.
  - destruct (database_name_capture line g E)
      as (pre & ws & post & Hl & Hws & Hg & Hgs & Hp).
    exists i, line, g, pre, ws, post.
    split; [done|]. split; [|done]. apply insert_insert_ne. done.
  - unfold has_database_name in Hname. by rewrite lookup_insert_eq in Hname.
Qed.

Lemma parse_database_info_capture_witness :
  let self := new_Parser main_config in
  let content := "x ** DATABASE:  admin (3 collections)" in
  let r : dict := {[ "line_number" := "1"; "database_name" := "admin" ]} in
  r ∈ parse_database_info self content /\
  exists i line name, Str.split newline (Str.strip content) !! i = Some line /\
    r = {[ "line_number" := Str.of_nat (S i); "database_name" := name ]}.
Proof.
  intros self content r.
  assert (r ∈ parse_database_info self content) as Hr.
  { replace (parse_database_info self content) with [r]
      by (vm_compute; reflexivity). by left. }
  split; [exact Hr|].
  destruct (parse_database_info_capture self content r eq_refl Hr)
    as (i & line & name & _ & _ & _ & Hi & Heq & _).
  by exists i, line, name.
Defined.

Lemma lookup_filter_imap {A B} (P : B -> bool) l :
  forall (f : nat -> A -> B) k y,
    List.filter P (imap f l) !! k = Some y ->
    exists i a, l !! i = Some a /\ y = f i a.
Proof.
  intros f k y Hy. apply list_elem_of_lookup_2 in Hy.
  apply elem_of_filter_imap in Hy as (i & a & Hi & -> & _). eauto.
Qed.

(** Filtering keeps the order of the lines. *)
Lemma lookup_filter_imap_lt {A B} (P : B -> bool) l :
  forall (f : nat -> A -> B) j k x y,
    j < k ->
    List.filter P (imap f l) !! j = Some x ->
    List.filter P (imap f l) !! k = Some y ->
    exists i1 i2 a1 a2,
      i1 < i2 /\ l !! i1 = Some a1 /\ l !! i2 = Some a2 /\
      x = f i1 a1 /\ y = f i2 a2.
Proof.
  induction l as [|a l IH]; intros f j k x y Hjk Hx Hy; [done|].
  cbn [imap List.filter] in Hx, Hy.
  assert (forall j k x y, j < k ->
            List.filter P (imap (f ∘ S) l) !! j = Some x ->
            List.filter P (imap (f ∘ S) l) !! k = Some y ->
            exists i1 i2 a1 a2,
              i1 < i2 /\ (a :: l) !! i1 = Some a1 /\ (a :: l) !! i2 = Some a2 /\
              x = f i1 a1 /\ y = f i2 a2) as Htail.
  { intros j' k' x' y' Hlt Hx' Hy'.
    destruct (IH (f ∘ S) j' k' x' y' Hlt Hx' Hy')
      as (i1 & i2 & a1 & a2 & Hi & H1 & H2 & -> & ->).
    exists (S i1), (S i2), a1, a2. repeat split; [lia|done|done]. }
  destruct (P (f 0 a)); [|by eapply Htail].
  destruct j as [|j], k as [|k]; try lia.
  - injection Hx as <-. simpl in Hy.
    apply lookup_filter_imap in Hy as (i & a2 & Hi & ->).
    exists 0, (S i), a, a2. repeat split; [lia|done].
  - simpl in Hx, Hy. eapply Htail; [|done|done]. lia.
Qed.

Lemma of_nat_inj n m : Str.of_nat n = Str.of_nat m -> n = m.
Proof.
  unfold Str.of_nat. intros H.
  apply DecimalNat.Unsigned.to_uint_inj.
  apply (f_equal NilEmpty.uint_of_string) in H.
  rewrite !NilEmpty.usu in H. by injection H.
Qed.

(** X5: with the registry's pattern the records of
    [parse_database_info] carry strictly increasing line numbers, from 1
    to the number of lines of the trimmed content at most; so no two
    records have the same [line_number] text. *)
Theorem parse_database_info_increasing self content j k (rj rk : dict) :
  database (config self) = DATABASE_REGEXES ->
  j < k ->
  parse_database_info self content !! j = Some rj ->
  parse_database_info self content !! k = Some rk ->
  exists nj nk,
    rj !! "line_number" = Some (Str.of_nat nj) /\
    rk !! "line_number" = Some (Str.of_nat nk) /\
    1 <= nj /\ nj < nk /\
    nk <= length (Str.split newline (Str.strip content)) /\
    rj !! "line_number" <> rk !! "line_number".
Proof.
  intros Hc Hjk Hj Hk. unfold parse_database_info in Hj, Hk.
  rewrite database_lines_filter in Hj, Hk. simpl in Hj, Hk.
  destruct (lookup_filter_imap_lt _ _ _ j k rj rk Hjk Hj Hk)
    as (i1 & i2 & l1 & l2 & Hi & H1 & H2 & -> & ->).
  exists (S i1), (S i2). rewrite !line_record_registry by done.
  rewrite !lookup_insert_ne by done. rewrite !lookup_singleton_eq.
  apply lookup_lt_Some in H2.
  repeat split; try done; try lia.
  intros [= E%of_nat_inj]. lia.
Qed.

Lemma parse_database_info_increasing_witness :
  let self := new_Parser main_config in
  let content := "** DATABASE: a" +:+ nl +:+ nl +:+ "** DATABASE: b" in
  exists rj rk : dict,
    parse_database_info self content !! 0 = Some rj /\
    parse_database_info self content !! 1 = Some rk /\
    rj !! "line_number" <> rk !! "line_number".
Proof.
  intros self content.
  exists {[ "line_number" := "1"; "database_name" := "a" ]},
         {[ "line_number" := "3"; "database_name" := "b" ]}.
  assert (parse_database_info self content !! 0 =
            Some ({[ "line_number" := "1"; "database_name" := "a" ]} : dict))
    as H0 by (vm_compute; reflexivity).
  assert (parse_database_info self content !! 1 =
            Some ({[ "line_number" := "3"; "database_name" := "b" ]} : dict))
    as H1 by (vm_compute; reflexivity).
  split; [exact H0|]. split; [exact H1|].
  destruct (parse_database_info_increasing self content 0 1 _ _
              eq_refl (Nat.lt_0_1) H0 H1) as (nj & nk & _ & _ & _ & _ & _ & H).
  exact H.
Defined.

(** ** From the command line to standard output *)

Lemma field_union_same_dom (l : list dict) (D : gset string) :
  l <> [] -> Forall (fun r : dict => dom r = D) l -> field_union l = D.
Proof.
  unfold field_union. induction l as [|r l IH]; [done|].
  intros _ [Hr Hl]%Forall_cons. rewrite fmap_cons, union_list_cons, Hr.
  destruct l as [|r' l]; [apply union_empty_r_L|].
  rewrite IH by done. apply union_idemp_L.
Qed.

(** The records of database mode all have the same two fields. *)
Lemma database_record_dom self content :
  database (config self) = DATABASE_REGEXES ->
  Forall (fun r : dict => dom r = {[ "database_name"; "line_number" ]})
    (parse_database_info self content).
Proof.
  intros Hc. apply Forall_forall. intros r Hr.
  unfold parse_database_info in Hr. rewrite database_lines_filter in Hr.
  apply elem_of_filter_imap in Hr as (i & line & _ & -> & _).
  rewrite line_record_registry by done.
  rewrite dom_insert_L, dom_singleton_L. done.
Qed.

Lemma database_header self content :
  database (config self) = DATABASE_REGEXES ->
  parse_database_info self content <> [] ->
  sorted_fields (parse_database_info self content)
    = [ "database_name"; "line_number" ].
Proof.
  intros Hc Hne. unfold sorted_fields.
  rewrite (field_union_same_dom _ {[ "database_name"; "line_number" ]})
    by (done || by apply database_record_dom).
  vm_compute. reflexivity.
Qed.

Lemma parse_arguments_ok is_file parse_type input_file :
  parse_type ∈ choices -> is_file input_file = true ->
  parse_arguments is_file (parse_type, input_file)
    = inr (parse_type, input_file).
Proof.
  intros Ht Hf. unfold parse_arguments.
  by rewrite bool_decide_eq_true_2, Hf.
Qed.

(** X6: run on a readable file in database mode, with room on standard
    output for a header and one row per record, [main] ends with status 0;
    it writes nothing when no line carries a name, and otherwise the
    header [database_name, line_number] followed, in line order, by one
    row per record with the name first and the line number second. *)
Theorem main_database is_file fs input_file content w :
  is_file input_file = true ->
  fs input_file = inr content ->
  let records := parse_database_info (new_Parser main_config) content in
  length records < capacity w ->
  let r := main is_file fs ("database", input_file) w in
  r.1 = 0 /\
  stdout r.2 =
    stdout w ++
    match records with
    | [] => []
    | _ :: _ =>
        [ "database_name"; "line_number" ] ::
        ((fun d : dict => [ default EmptyString (d !! "database_name");
                            default EmptyString (d !! "line_number") ])
           <$> records)
    end.
Proof.
  intros Hf Hfs records Hcap r. subst r. unfold main.
  rewrite parse_arguments_ok by (done || (unfold choices; set_solver)).
  unfold parse_file, read_text_file. rewrite Hfs.
  cbn [String.eqb Ascii.eqb Bool.eqb set_parsed_data parsed_data].
  fold records.
  destruct records as [|d ds] eqn:Er.
  { unfold write_to_csv. cbn [parsed_data]. simpl. by rewrite app_nil_r. }
  rewrite write_to_csv_stdout_eq by done.
  unfold set_parsed_data. cbn [parsed_data].
  assert (sorted_fields (d :: ds) = [ "database_name"; "line_number" ]) as ->.
  { rewrite <- Er. apply database_header; [done|]. fold records. by rewrite Er. }
  rewrite decide_True by (cbn [length] in *; rewrite length_fmap; cbn [length]; lia).
  split; [done|]. cbn [snd stdout]. f_equal.
  rewrite take_ge; [done|].
  cbn [length] in *. rewrite length_fmap. cbn [length]. lia.
Qed.

Lemma main_database_witness :
  let log := "-- dump" +:+ nl +:+ "** DATABASE: admin" +:+ nl
             +:+ "** DATABASE: local (empty)" in
  let fs : FileSystem := fun path =>
    if String.eqb path "db.log" then inr log else inl FileNotFoundError in
  let w := {| stdout := []; files := ∅; opened := []; readonly := ∅;
              capacity := 5 |} in
  (main (String.eqb "db.log") fs ("database", "db.log") w).1 = 0 /\
  stdout (main (String.eqb "db.log") fs ("database", "db.log") w).2 =
    [ [ "database_name"; "line_number" ]; [ "admin"; "2" ]; [ "local"; "3" ] ].
Proof.
  intros log fs w.
  destruct (main_database (String.eqb "db.log") fs "db.log" log w)
    as [H0 H1]; [reflexivity | reflexivity | vm_compute; lia |].
  split; [exact H0|]. rewrite H1. vm_compute. reflexivity.
Defined.







(** ** Blank entries of a host list *)

Lemma split_app sep u v :
  Str.split sep (u +:+ String sep v) = Str.split sep u ++ Str.split sep v.
Proof.
  induction u as [|c u IH]; simpl.
  - by rewrite Ascii.eqb_refl.
  - destruct (Ascii.eqb c sep); [by rewrite IH|]. rewrite IH.
    destruct (Str.split sep u) as [|piece ps] eqn:E;
      [by apply split_nonempty in E|done].
Qed.

Lemma isspace_not_comma ws :
  Str.all Str.isspace ws = true ->
  Str.all (fun c => negb (Ascii.eqb c comma)) ws = true.
Proof.
  apply all_impl. intros c Hc.
  destruct (Ascii.eqb_spec c comma) as [->|]; [discriminate Hc|done].
Qed.

(** X9: an entry of the host list that is empty or only whitespace does
    not count: the hosts value is the same without it, be it between two
    commas or after the last one. *)
Theorem hosts_value_blank_entry u ws v :
  Str.all Str.isspace ws = true ->
  hosts_value (u +:+ "," +:+ ws +:+ "," +:+ v) = hosts_value (u +:+ "," +:+ v)
  /\ hosts_value (u +:+ "," +:+ ws) = hosts_value u.
Proof.
  intros Hws. unfold hosts_value.
  assert (Str.split comma ws = [ws]) as Ews
    by (by apply split_free, isspace_not_comma).
  assert (List.filter (fun host => negb (Str.is_empty (Str.strip host))) [ws]
          = []) as Ef.
  { simpl. unfold Str.strip. by rewrite strip_by_all. }
  change ("," +:+ ws +:+ "," +:+ v) with (String comma (ws +:+ String comma v)).
  change ("," +:+ v) with (String comma v).
  change ("," +:+ ws) with (String comma ws).
  rewrite !split_app, Ews, !List.filter_app, Ef. simpl.
  by rewrite app_nil_r.
Qed.

Lemma hosts_value_blank_entry_witness :
  Str.all Str.isspace "  " = true /\
  hosts_value ("'a'" +:+ "," +:+ "  " +:+ "," +:+ " 'b'") = "a | b" /\
  hosts_value ("'a', 'b'" +:+ "," +:+ "  ") = "a | b".
Proof.
  split; [reflexivity|].
  destruct (hosts_value_blank_entry "'a'" "  " " 'b'" eq_refl) as [-> _].
  destruct (hosts_value_blank_entry "'a', 'b'" "  " EmptyString eq_refl)
    as [_ ->].
  split; vm_compute; reflexivity.
Defined.
